(** * dps_jupyter_server_extension/handlers.py: a shallow embedding

    The module proxies seven GET routes of a notebook server to a remote
    job API (the [MAAP] client).  The embedding keeps the shape of the
    Python code:

    - a raised exception is the [Raise] case of [result];
    - the handlers run in the monad [M], which threads the process state
      (the [functools.lru_cache] of [get_maap_config] and the trace of
      observable effects: remote calls, [self.finish], log records) and
      keeps the state reached when an exception is raised;
    - the collaborators that are not part of the module (the contents of
      [maap_environments.json], the [MAAP] client) are the fields of
      [World]. *)

From Stdlib Require Import ZArith NArith String Ascii List Bool Lia.
From stdpp Require Import base option list gmap strings.

#[local] Set Warnings "-register-all".

(** ** Python values used by the module *)

(** [bytes]: the values of [request.arguments]. *)
Abbreviation bytes := (list Byte.byte).

(** A decoded [str], as its sequence of Unicode code points.  The [str]
    values that the module only compares and concatenates (host, uri,
    dictionary keys, response bodies) are kept as [string]. *)
Abbreviation text := (list N).

Inductive exn : Type :=
| FileNotFoundError
| JSONDecodeError
| KeyError (key : string)
| IndexError
| UnicodeDecodeError
| TypeError (what : string)
| ClientError (what : string).

Inductive result (A : Type) : Type :=
| Ok (a : A)
| Raise (e : exn).
Arguments Ok {A} a.
Arguments Raise {A} e.

#[global] Instance result_ret : MRet result := fun A a => Ok a.
#[global] Instance result_bind : MBind result := fun A B f r =>
  match r with
  | Ok a => f a
  | Raise e => Raise e
  end.

(** [needle in hay] for two [str]: substring containment. *)
Fixpoint str_contains (needle hay : string) : bool :=
  String.prefix needle hay ||
  match hay with
  | EmptyString => false
  | String _ rest => str_contains needle rest
  end.

(** ** [bytes.decode("utf-8")], strict error handling *)
Module Utf8.

Definition continuation (b : N) : bool := (0x80 <=? b)%N && (b <=? 0xBF)%N.

Definition low6 (b : N) : N := N.land b 0x3F.

(** A code point that a sequence of the given length may encode: not
    below [least] (no overlong form), no surrogate, at most U+10FFFF. *)
Definition scalar (least cp : N) : bool :=
  (least <=? cp)%N && (cp <=? 0x10FFFF)%N
  && negb ((0xD800 <=? cp)%N && (cp <=? 0xDFFF)%N).

Fixpoint decode (bs : list N) : option text :=
  match bs with
  | [] => Some []
  | b0 :: r0 =>
      if (b0 <? 0x80)%N then cons b0 <$> decode r0
      else if (0xC0 <=? b0)%N && (b0 <=? 0xDF)%N then
        match r0 with
        | b1 :: r1 =>
            let cp := (N.shiftl (N.land b0 0x1F) 6 + low6 b1)%N in
            if continuation b1 && scalar 0x80 cp
            then cons cp <$> decode r1 else None
        | _ => None
        end
      else if (0xE0 <=? b0)%N && (b0 <=? 0xEF)%N then
        match r0 with
        | b1 :: b2 :: r2 =>
            let cp := (N.shiftl (N.land b0 0x0F) 12
                       + N.shiftl (low6 b1) 6 + low6 b2)%N in
            if continuation b1 && continuation b2 && scalar 0x800 cp
            then cons cp <$> decode r2 else None
        | _ => None
        end
      else if (0xF0 <=? b0)%N && (b0 <=? 0xF7)%N then
        match r0 with
        | b1 :: b2 :: b3 :: r3 =>
            let cp := (N.shiftl (N.land b0 0x07) 18
                       + N.shiftl (low6 b1) 12
                       + N.shiftl (low6 b2) 6 + low6 b3)%N in
            if continuation b1 && continuation b2 && continuation b3
               && scalar 0x10000 cp
            then cons cp <$> decode r3 else None
        | _ => None
        end
      else None
  end.

End Utf8.

(** [b.decode("utf-8")] *)
Definition decode_utf8 (b : bytes) : result text :=
  match Utf8.decode (Byte.to_N <$> b) with
  | Some t => Ok t
  | None => Raise UnicodeDecodeError
  end.

(** [value[0]] on a list *)
Definition item0 {A} (value : list A) : result A :=
  match value with
  | x :: _ => Ok x
  | [] => Raise IndexError
  end.

(** [d[key]] on a dict *)
Definition getitem {A} (d : gmap string A) (key : string) : result A :=
  match d !! key with
  | Some v => Ok v
  | None => Raise (KeyError key)
  end.

(** ** [maap_environments.json] *)

(** The value under ["ade_server"]: a JSON string, or a JSON array of
    strings.  [host in v] is substring containment on the first and
    membership on the second. *)
Inductive ade_value : Type :=
| AdeStr (s : string)
| AdeList (l : list string).

Record env_entry : Type := {
  default_host : bool;
  ade_server : ade_value;
  api_server : string
}.

Definition host_in (host : string) (v : ade_value) : bool :=
  match v with
  | AdeStr s => str_contains host s
  | AdeList l => bool_decide (host ∈ l)
  end.

(** [next((x for x in data if p(x)), None)] *)
Definition next_or_None {A} (p : A → bool) (data : list A) : option A :=
  List.find p data.

(** ** Values exchanged with the remote client and with the browser *)

Inductive json : Type :=
| JNull
| JBool (b : bool)
| JNum (n : Z)
| JStr (s : string)
| JArr (items : list json)
| JObj (members : list (string * json)).

(** The object returned by a client method: [resp.ok],
    [resp.status_code], [resp.text] and the outcome of [resp.json()]. *)
Record Response : Type := {
  resp_ok : bool;
  resp_status_code : Z;
  resp_text : string;
  resp_json : result json
}.

Inductive method : Type :=
| getCapabilities | submitJob | deleteJob
| getJobResult | getJobMetrics | getJobStatus | listJobs.

(** A constructed [MAAP] object: the outcome of calling one of its
    methods on the given positional arguments. *)
Definition client : Type := method → list text → result Response.

(** The dict handed to [self.finish]. *)
Inductive content : Type :=
| Text (s : string)
| Json (j : json).

Record envelope : Type := {
  status_code : Z;
  response : content
}.

(** [self.request]: the [Host] header, the path with its query string,
    the decoded query and form arguments, and the raw body. *)
Record Request : Type := {
  host : string;
  uri : string;
  arguments : list (string * list bytes);
  body : bytes
}.

(** ** Process state and collaborators *)

Inductive event : Type :=
| RemoteCall (m : method) (args : list text)
| Finish (chunk : envelope)
| LogRecord (level : Z) (msg : string).

Record State : Type := {
  cache : list (string * option env_entry);
  trace : list event
}.

Record World : Type := {
  (** [json.load(open(path_to_json))]: the parsed file, or the
      exception of [open] or of [json.load]. *)
  config_source : result (list env_entry);
  (** [MAAP(api_host)] *)
  MAAP : string → result client
}.

Definition M (A : Type) : Type := State → result A * State.

#[global] Instance M_ret : MRet M := fun A a s => (Ok a, s).
#[global] Instance M_bind : MBind M := fun A B f m s =>
  match m s with
  | (Ok a, s') => f a s'
  | (Raise e, s') => (Raise e, s')
  end.

Definition raise {A} (e : exn) : M A := fun s => (Raise e, s).

Definition lift {A} (r : result A) : M A := fun s => (r, s).

Definition emit (ev : event) : M unit := fun s =>
  (Ok tt, {| cache := cache s; trace := trace s ++ [ev] |}).

(** [try: block / except: handler] with a bare [except]. *)
Definition try_except {A} (block handler : M A) : M A := fun s =>
  match block s with
  | (Ok a, s') => (Ok a, s')
  | (Raise _, s') => handler s'
  end.

(** *** [functools.lru_cache(maxsize=128)]

    The cache is kept most recently used first.  A hit moves the entry to
    the front; a miss runs the function and stores its result, dropping
    the least recently used entry when the cache is full; an exception
    of the function is not stored. *)
Definition maxsize : nat := 128.

Definition cache_lookup {V} (key : string) (c : list (string * V))
  : option V :=
  snd <$> List.find (fun kv => bool_decide (kv.1 = key)) c.

Definition cache_touch {V} (key : string) (v : V) (c : list (string * V))
  : list (string * V) :=
  (key, v) :: List.filter (fun kv => negb (bool_decide (kv.1 = key))) c.

Definition cache_store {V} (key : string) (v : V) (c : list (string * V))
  : list (string * V) :=
  take maxsize ((key, v) :: c).

(** *** The [logging] module

    [logging.ERROR] is the integer level 40; the function that emits a
    record at that level is [logging.error].  Calling an integer raises
    [TypeError]. *)
Inductive logging_attr : Type :=
| Level (n : Z)
| LogFunction (level : Z).

Definition logging_ERROR : logging_attr := Level 40.
Definition logging_error : logging_attr := LogFunction 40.

Definition call_logging (f : logging_attr) (msg : string) : M unit :=
  match f with
  | Level _ => raise (TypeError "'int' object is not callable")
  | LogFunction level => emit (LogRecord level msg)
  end.

(** [self.finish(chunk)] *)
Definition finish (chunk : envelope) : M unit := emit (Finish chunk).

(** A method call on the client, [maap.m(a1, ..., an)] *)
Definition call (maap : client) (m : method) (args : list text)
  : M Response :=
  emit (RemoteCall m args);; lift (maap m args).

(** ** The module *)

(** [parse_params] *)
Definition parse_params (args : list (string * list bytes))
  : result (gmap string text) :=
  foldl (fun acc '(key, value) =>
           params ← acc;
           v0 ← item0 value;
           s ← decode_utf8 v0;
           Ok (<[key := s]> params))
        (Ok ∅) args.

Section Handlers.

Variable w : World.

(** The body of [get_maap_config], under the decorator. *)
Definition get_maap_config_wrapped (host : string)
  : result (option env_entry) :=
  data ← config_source w;
  let match_ := next_or_None (fun x => host_in host (ade_server x)) data in
  let maap_config :=
    match match_ with
    | None => next_or_None (fun x => default_host x) data
    | Some m => Some m
    end in
  Ok maap_config.

(** [get_maap_config], as decorated. *)
Definition get_maap_config (host : string) : M (option env_entry) :=
  fun s =>
    match cache_lookup host (cache s) with
    | Some v =>
        (Ok v, {| cache := cache_touch host v (cache s);
                  trace := trace s |})
    | None =>
        match get_maap_config_wrapped host with
        | Ok v =>
            (Ok v, {| cache := cache_store host v (cache s);
                      trace := trace s |})
        | Raise e => (Raise e, s)
        end
    end.

(** [maap_api]: [get_maap_config(host)['api_server']] *)
Definition maap_api (host : string) : M string :=
  maap_config ← get_maap_config host;
  match maap_config with
  | Some c => mret (api_server c)
  | None => raise (TypeError "'NoneType' object is not subscriptable")
  end.

(** The message built by every [except] clause. *)
Definition failure_msg (self : Request) : string :=
  "Failed to query endpoint: " +:+ host self +:+ uri self.

Definition DescribeCapabilitiesHandler_get (self : Request) : M unit :=
  api ← maap_api (host self);
  maap ← lift (MAAP w api);
  try_except
    (resp ← call maap getCapabilities [];
     finish {| status_code := resp_status_code resp;
               response := Text (resp_text resp) |})
    (let msg := failure_msg self in
     call_logging logging_ERROR msg;;
     finish {| status_code := 500; response := Text msg |}).

Definition SubmitJobHandler_get (self : Request) : M unit :=
  api ← maap_api (host self);
  maap ← lift (MAAP w api);
  try_except
    (resp ← call maap submitJob [];
     if resp_ok resp then
       j ← lift (resp_json resp);
       finish {| status_code := resp_status_code resp;
                 response := Json j |}
     else
       finish {| status_code := resp_status_code resp;
                 response := Text (resp_text resp) |})
    (let msg := failure_msg self in
     call_logging logging_ERROR msg;;
     finish {| status_code := 500; response := Text msg |}).

Definition RevokeJobHandler_get (self : Request) : M unit :=
  api ← maap_api (host self);
  maap ← lift (MAAP w api);
  params ← lift (parse_params (arguments self));
  try_except
    (job_id ← lift (getitem params "job_id");
     resp ← call maap deleteJob [job_id];
     if resp_ok resp then
       j ← lift (resp_json resp);
       finish {| status_code := resp_status_code resp;
                 response := Json j |}
     else
       finish {| status_code := resp_status_code resp;
                 response := Text (resp_text resp) |})
    (let msg := failure_msg self in
     call_logging logging_ERROR msg;;
     finish {| status_code := 500; response := Text msg |}).

Definition JobResultHandler_get (self : Request) : M unit :=
  api ← maap_api (host self);
  maap ← lift (MAAP w api);
  params ← lift (parse_params (arguments self));
  try_except
    (job_id ← lift (getitem params "job_id");
     resp ← call maap getJobResult [job_id];
     if resp_ok resp then
       j ← lift (resp_json resp);
       finish {| status_code := resp_status_code resp;
                 response := Json j |}
     else
       finish {| status_code := resp_status_code resp;
                 response := Text (resp_text resp) |})
    (let msg := failure_msg self in
     call_logging logging_ERROR msg;;
     finish {| status_code := 500; response := Text msg |}).

Definition JobMetricsHandler_get (self : Request) : M unit :=
  api ← maap_api (host self);
  maap ← lift (MAAP w api);
  params ← lift (parse_params (arguments self));
  try_except
    (job_id ← lift (getitem params "job_id");
     resp ← call maap getJobMetrics [job_id];
     if resp_ok resp then
       j ← lift (resp_json resp);
       finish {| status_code := resp_status_code resp;
                 response := Json j |}
     else
       finish {| status_code := resp_status_code resp;
                 response := Text (resp_text resp) |})
    (let msg := failure_msg self in
     call_logging logging_ERROR msg;;
     finish {| status_code := 500; response := Text msg |}).

Definition JobStatusHandler_get (self : Request) : M unit :=
  api ← maap_api (host self);
  maap ← lift (MAAP w api);
  params ← lift (parse_params (arguments self));
  try_except
    (job_id ← lift (getitem params "job_id");
     resp ← call maap getJobStatus [job_id];
     if resp_ok resp then
       j ← lift (resp_json resp);
       finish {| status_code := resp_status_code resp;
                 response := Json j |}
     else
       finish {| status_code := resp_status_code resp;
                 response := Text (resp_text resp) |})
    (let msg := failure_msg self in
     call_logging logging_ERROR msg;;
     finish {| status_code := 500; response := Text msg |}).

Definition ListJobsHandler_get (self : Request) : M unit :=
  api ← maap_api (host self);
  maap ← lift (MAAP w api);
  params ← lift (parse_params (arguments self));
  try_except
    (username ← lift (getitem params "username");
     resp ← call maap listJobs [username];
     if resp_ok resp then
       j ← lift (resp_json resp);
       finish {| status_code := resp_status_code resp;
                 response := Json j |}
     else
       finish {| status_code := resp_status_code resp;
                 response := Text (resp_text resp) |})
    (let msg := failure_msg self in
     call_logging logging_ERROR msg;;
     finish {| status_code := 500; response := Text msg |}).

(** The handler classes, and the [get] method of each. *)
Inductive handler_class : Type :=
| DescribeCapabilitiesHandler | SubmitJobHandler | RevokeJobHandler
| JobResultHandler | JobMetricsHandler | JobStatusHandler
| ListJobsHandler.

Definition get (h : handler_class) : Request → M unit :=
  match h with
  | DescribeCapabilitiesHandler => DescribeCapabilitiesHandler_get
  | SubmitJobHandler => SubmitJobHandler_get
  | RevokeJobHandler => RevokeJobHandler_get
  | JobResultHandler => JobResultHandler_get
  | JobMetricsHandler => JobMetricsHandler_get
  | JobStatusHandler => JobStatusHandler_get
  | ListJobsHandler => ListJobsHandler_get
  end.

End Handlers.

(** *** [setup_handlers] *)
Section Setup.

(** [jupyter_server.utils.url_path_join] *)
Variable url_path_join : list string → string.

(** The part of the tornado application that [setup_handlers] reads
    and extends. *)
Record web_app : Type := {
  settings : gmap string string;
  handlers : list (string * list (string * handler_class))
}.

Definition add_handlers (host_pattern : string)
    (host_handlers : list (string * handler_class)) (app : web_app)
  : web_app :=
  {| settings := settings app;
     handlers := handlers app ++ [(host_pattern, host_handlers)] |}.

Definition setup_handlers (app : web_app) : result web_app :=
  let host_pattern := ".*$" in
  base_url ← getitem (settings app) "base_url";
  let route name := url_path_join [base_url; "dps-jupyter-server-extension"; name] in
  let app := add_handlers host_pattern [(route "describeCapabilities", DescribeCapabilitiesHandler)] app in
  let app := add_handlers host_pattern [(route "submitJob", SubmitJobHandler)] app in
  let app := add_handlers host_pattern [(route "revokeJob", RevokeJobHandler)] app in
  let app := add_handlers host_pattern [(route "jobResult", JobResultHandler)] app in
  let app := add_handlers host_pattern [(route "jobMetrics", JobMetricsHandler)] app in
  let app := add_handlers host_pattern [(route "jobStatus", JobStatusHandler)] app in
  let app := add_handlers host_pattern [(route "listJobs", ListJobsHandler)] app in
  Ok app.

End Setup.

(** * Definitions used by the statements *)

(** Resolution as the specification words it: the first entry one of
    whose host patterns is a substring of the host, else the entry
    marked as default. *)
Definition host_patterns (x : env_entry) : list string :=
  match ade_server x with
  | AdeStr s => [s]
  | AdeList l => l
  end.

Definition resolve_by_pattern_in_host (data : list env_entry) (host : string)
  : option env_entry :=
  match List.find (fun x => existsb (fun p => str_contains p host)
                                     (host_patterns x)) data with
  | Some m => Some m
  | None => List.find (fun x => default_host x) data
  end.

(** The process state before any request. *)
Definition initial_state : State := {| cache := []; trace := [] |}.

(** Every cached resolution is what the undecorated function returns. *)
Definition coherent (w : World) (s : State) : Prop :=
  ∀ h v, cache_lookup h (cache s) = Some v → get_maap_config_wrapped w h = Ok v.


(** The first value of an entry is there and decodes. *)
Definition first_value_decodes (value : list bytes) (t : text) : Prop :=
  ∃ v0, head value = Some v0 ∧ decode_utf8 v0 = Ok t.

(** *** The common pattern of the seven handlers

    Every [get] resolves the API host, constructs the client, decodes
    the arguments when it needs one of them, and runs one client call
    under [try], with the same [except] clause.  [get_skeleton] below
    shows that the handlers are the instances of this pattern. *)

Definition remote_method (h : handler_class) : method :=
  match h with
  | DescribeCapabilitiesHandler => getCapabilities
  | SubmitJobHandler => submitJob
  | RevokeJobHandler => deleteJob
  | JobResultHandler => getJobResult
  | JobMetricsHandler => getJobMetrics
  | JobStatusHandler => getJobStatus
  | ListJobsHandler => listJobs
  end.

Definition required_param (h : handler_class) : option string :=
  match h with
  | DescribeCapabilitiesHandler | SubmitJobHandler => None
  | RevokeJobHandler | JobResultHandler | JobMetricsHandler
  | JobStatusHandler => Some "job_id"
  | ListJobsHandler => Some "username"
  end.

(** Whether the handler tests [resp.ok]. *)
Definition branches (h : handler_class) : bool :=
  match h with
  | DescribeCapabilitiesHandler => false
  | _ => true
  end.

(** The exception of [logging.ERROR(msg)]. *)
Definition not_callable : exn := TypeError "'int' object is not callable".

(** The [except] clause. *)
Definition except_clause (self : Request) : M unit :=
  let msg := failure_msg self in
  call_logging logging_ERROR msg;;
  finish {| status_code := 500; response := Text msg |}.

(** What follows the client call inside [try]. *)
Definition respond (h : handler_class) (resp : Response) : M unit :=
  if branches h then
    if resp_ok resp then
      j ← lift (resp_json resp);
      finish {| status_code := resp_status_code resp; response := Json j |}
    else
      finish {| status_code := resp_status_code resp;
                response := Text (resp_text resp) |}
  else
    finish {| status_code := resp_status_code resp;
              response := Text (resp_text resp) |}.

Definition skeleton (w : World) (h : handler_class) (self : Request)
  : M unit :=
  api ← maap_api w (host self);
  maap ← lift (MAAP w api);
  match required_param h with
  | Some key =>
      params ← lift (parse_params (arguments self));
      try_except
        (v ← lift (getitem params key);
         resp ← call maap (remote_method h) [v];
         respond h resp)
        (except_clause self)
  | None =>
      try_except
        (resp ← call maap (remote_method h) [];
         respond h resp)
        (except_clause self)
  end.

(** The positional arguments that the handler gives to the client
    method. *)
Definition call_args (h : handler_class) (args : list (string * list bytes))
  : result (list text) :=
  match required_param h with
  | Some key =>
      params ← parse_params args;
      v ← getitem params key;
      Ok [v]
  | None => Ok []
  end.

(** An action that leaves the resolver cache as it found it. *)
Definition keeps_cache {A} (m : M A) : Prop :=
  ∀ s, cache (m s).2 = cache s.

(** The state [s] after the events [evs]. *)
Definition after (s : State) (evs : list event) : State :=
  {| cache := cache s; trace := trace s ++ evs |}.

(** Pass-through of the payload, as the specification words it for
    [submitJob]: the submit call of the trace receives the decoded
    first value of every argument of the request. *)
Definition passes_payload (self : Request) (tr : list event) : Prop :=
  ∃ args, RemoteCall submitJob args ∈ tr
          ∧ ∀ k v t, (k, v) ∈ arguments self →
                     first_value_decodes v t → t ∈ args.

(** ** Sample configurations, clients and requests *)
Module Sample.

Definition ops : env_entry :=
  {| default_host := true;
     ade_server := AdeStr "ade.ops.example.org";
     api_server := "api.ops.example.org" |}.

Definition dit : env_entry :=
  {| default_host := false;
     ade_server := AdeStr "ade.dit.example.org";
     api_server := "api.dit.example.org" |}.

Definition uat : env_entry :=
  {| default_host := false;
     ade_server := AdeList ["ade.uat.example.org"; "ade2.uat.example.org"];
     api_server := "api.uat.example.org" |}.

Definition data : list env_entry := [ops; dit; uat].

(** A configuration in which no entry is marked as default. *)
Definition no_default : list env_entry := [dit; uat].

(** A client whose every method gives the same outcome. *)
Definition always (r : result Response) : client := fun _ _ => r.

Definition refused : client :=
  always (Raise (ClientError "ConnectionError: connection refused")).

Definition quote : string := String "034"%char EmptyString.

(** Status 200, body [{"id": "j-1"}]. *)
Definition accepted : Response :=
  {| resp_ok := true;
     resp_status_code := 200;
     resp_text := "{" +:+ quote +:+ "id" +:+ quote +:+ ": "
                  +:+ quote +:+ "j-1" +:+ quote +:+ "}";
     resp_json := Ok (JObj [("id", JStr "j-1")]) |}.

(** Status 400, an XML error document. *)
Definition rejected : Response :=
  {| resp_ok := false;
     resp_status_code := 400;
     resp_text := "<Error>bad id</Error>";
     resp_json := Raise JSONDecodeError |}.

Definition world (data : list env_entry) (maap : client) : World :=
  {| config_source := Ok data; MAAP := fun _ => Ok maap |}.

(** The configuration file is missing. *)
Definition no_file : World :=
  {| config_source := Raise FileNotFoundError;
     MAAP := fun _ => Ok (always (Ok accepted)) |}.

Definition ascii_bytes (s : string) : bytes := list_byte_of_string s.

Definition request (path : string) (args : list (string * list bytes))
  : Request :=
  {| host := "ade.ops.example.org";
     uri := "/dps-jupyter-server-extension/" +:+ path;
     arguments := args;
     body := [] |}.

Definition revoke_j1 : Request :=
  request "revokeJob?job_id=j-1" [("job_id", [ascii_bytes "j-1"])].

(** [job_id=j-1&job_id=j-2&username=%C3%A9]: a repeated key, and a
    value outside ASCII. *)
Definition repeated : list (string * list bytes) :=
  [("job_id", [ascii_bytes "j-1"; ascii_bytes "j-2"]);
   ("username", [[Byte.xc3; Byte.xa9]])].

(** The code points of ["j-1"]. *)
Definition j1 : text := [106; 45; 49]%N.

Definition revoke_no_job_id : Request := request "revokeJob" [].

(** [job_id=%FF]: the byte 0xFF is not valid UTF-8. *)
Definition revoke_bad_utf8 : Request :=
  request "revokeJob?job_id=%FF" [("job_id", [[Byte.xff]])].

Definition submit_with_payload : Request :=
  request "submitJob?algo_id=hello&version=main"
          [("algo_id", [ascii_bytes "hello"]);
           ("version", [ascii_bytes "main"])].

Definition capabilities : Request := request "describeCapabilities" [].

(** A stand-in for [url_path_join]. *)
Definition join (pieces : list string) : string := String.concat "/" pieces.

Definition app : web_app :=
  {| settings := {[ "base_url" := "/user/alice" ]}; handlers := [] |}.

(** The state once [ade.ops.example.org] has been resolved. *)
Definition ops_resolved : State :=
  {| cache := [("ade.ops.example.org", Some ops)]; trace := [] |}.

(** A request whose [Host] header carries a port. *)
Definition dit_with_port : string := "ade.dit.example.org:8888".

End Sample.


(** * Definitions used by the further properties *)

(** The state that the process reaches by handling the requests in
    order.  An exception that leaves a handler ends that request only:
    the next request starts from the state the failed one left. *)
Fixpoint serve (w : World) (requests : list (handler_class * Request))
    (s : State) : State :=
  match requests with
  | [] => s
  | (h, self) :: rest => serve w rest (get w h self s).2
  end.

(** The state after the hosts have been resolved in order.  A
    resolution that raises leaves the state as it was. *)
Definition resolve_all (w : World) (hosts : list string) (s : State)
  : State :=
  foldl (fun s host => (get_maap_config w host s).2) s hosts.

Definition is_call (ev : event) : bool :=
  match ev with
  | RemoteCall _ _ => true
  | _ => false
  end.

Definition is_finish (ev : event) : bool :=
  match ev with
  | Finish _ => true
  | _ => false
  end.

(** The argument mapping with every value list cut to its first
    value. *)
Definition first_values (args : list (string * list bytes))
  : list (string * list bytes) :=
  (fun kv => (kv.1, take 1 kv.2)) <$> args.

(** An action whose result and added events do not depend on the state
    it starts from, and which leaves the cache alone. *)
Definition appends {A} (m : M A) (r : result A) (evs : list event) : Prop :=
  ∀ s, m s = (r, after s evs).

(** An action whose result and added events are the same in every
    state. *)
Definition state_blind {A} (m : M A) : Prop :=
  ∃ r evs, appends m r evs.

(** The ways in which [get] can end, read off the seven handlers: the
    three steps before [try], the three errors inside [try], which all
    reach the [except] clause, and the normal end. *)
Inductive ending (w : World) (h : handler_class) (self : Request) (s : State)
  : result unit * State → Prop :=
| resolution_raised e s1 :
    maap_api w (host self) s = (Raise e, s1) →
    ending w h self s (Raise e, s1)
| constructor_raised api s1 e :
    maap_api w (host self) s = (Ok api, s1) →
    MAAP w api = Raise e →
    ending w h self s (Raise e, s1)
| decoding_raised api s1 maap key e :
    maap_api w (host self) s = (Ok api, s1) →
    MAAP w api = Ok maap →
    required_param h = Some key →
    parse_params (arguments self) = Raise e →
    ending w h self s (Raise e, s1)
| parameter_missing api s1 maap key params :
    maap_api w (host self) s = (Ok api, s1) →
    MAAP w api = Ok maap →
    required_param h = Some key →
    parse_params (arguments self) = Ok params →
    params !! key = None →
    ending w h self s (Raise not_callable, s1)
| call_raised api s1 maap args e :
    maap_api w (host self) s = (Ok api, s1) →
    MAAP w api = Ok maap →
    call_args h (arguments self) = Ok args →
    maap (remote_method h) args = Raise e →
    ending w h self s
      (Raise not_callable, after s1 [RemoteCall (remote_method h) args])
| json_raised api s1 maap args resp e :
    maap_api w (host self) s = (Ok api, s1) →
    MAAP w api = Ok maap →
    call_args h (arguments self) = Ok args →
    maap (remote_method h) args = Ok resp →
    branches h = true → resp_ok resp = true →
    resp_json resp = Raise e →
    ending w h self s
      (Raise not_callable, after s1 [RemoteCall (remote_method h) args])
| json_passed api s1 maap args resp j :
    maap_api w (host self) s = (Ok api, s1) →
    MAAP w api = Ok maap →
    call_args h (arguments self) = Ok args →
    maap (remote_method h) args = Ok resp →
    branches h = true → resp_ok resp = true →
    resp_json resp = Ok j →
    ending w h self s
      (Ok tt, after s1 [RemoteCall (remote_method h) args;
                        Finish {| status_code := resp_status_code resp;
                                  response := Json j |}])
| text_passed api s1 maap args resp :
    maap_api w (host self) s = (Ok api, s1) →
    MAAP w api = Ok maap →
    call_args h (arguments self) = Ok args →
    maap (remote_method h) args = Ok resp →
    branches h = false ∨ resp_ok resp = false →
    ending w h self s
      (Ok tt, after s1 [RemoteCall (remote_method h) args;
                        Finish {| status_code := resp_status_code resp;
                                  response := Text (resp_text resp) |}]).

(** A Unicode scalar value: at most U+10FFFF and no surrogate. *)
Definition scalar_value (cp : N) : Prop :=
  (cp ≤ 0x10FFFF)%N ∧ ¬ (0xD800 ≤ cp ≤ 0xDFFF)%N.

(** The classes registered by a list of [add_handlers] entries. *)
Definition registered (entries : list (string * list (string * handler_class)))
  : list handler_class :=
  (concat entries.*2).*2.

(** ** Further sample data *)
Module More.

(** 128 distinct one-character hosts, none of them resolved to an
    entry: a cache that is full. *)
Definition full_cache : list (string * option env_entry) :=
  (fun n => (String (ascii_of_nat (33 + n)) EmptyString, None)) <$> seq 0 128.

Definition full : State := {| cache := full_cache; trace := [] |}.

(** The host at the far end of [full_cache]: the one used least
    recently. *)
Definition oldest : string := String (ascii_of_nat 160) EmptyString.

(** [job_id=j-1&job_id=%FF]: the second value is not valid UTF-8. *)
Definition second_value_bad : list (string * list bytes) :=
  [("job_id", [Sample.ascii_bytes "j-1"; [Byte.xff]])].

(** [job_id=j-1&bad=%FF&empty]: the entry after [bad] has no value. *)
Definition bad_then_empty : list (string * list bytes) :=
  [("job_id", [Sample.ascii_bytes "j-1"]); ("bad", [[Byte.xff]]);
   ("empty", [])].

(** The same job under two different query strings. *)
Definition revoke_j1_verbose : Request :=
  {| host := "ade.ops.example.org";
     uri := "/dps-jupyter-server-extension/revokeJob?job_id=j-1";
     arguments := [("job_id", [Sample.ascii_bytes "j-1"]);
                   ("verbose", [Sample.ascii_bytes "1"])];
     body := [] |}.

Definition revoke_j1_plain : Request :=
  {| host := "ade.ops.example.org";
     uri := "/dps-jupyter-server-extension/revokeJob?job_id=j-1";
     arguments := [("job_id", [Sample.ascii_bytes "j-1";
                               Sample.ascii_bytes "j-2"])];
     body := [] |}.

(** An application that already has a handler and no [base_url]. *)
Definition bare_app : web_app :=
  {| settings := ∅;
     handlers := [(".*$", [("/api/status", JobStatusHandler)])] |}.

End More.

(** * Properties *)

(** ** Environment resolution *)

Lemma find_first {A} (p : A → bool) (pre : list A) (x : A) (post : list A) :
  Forall (fun y => p y = false) pre → p x = true →
  List.find p (pre ++ x :: post) = Some x.
Proof.
  induction 1 as [|y pre Hy _ IH]; intros Hx; simpl.
  - by rewrite Hx.
  - rewrite Hy. by apply IH.
Qed.

Lemma find_none {A} (p : A → bool) (l : list A) :
  Forall (fun y => p y = false) l → List.find p l = None.
Proof.
  induction 1 as [|y l Hy _ IH]; simpl; [done|]. by rewrite Hy.
Qed.

Lemma find_some_exists {A} (p : A → bool) (l : list A) (x : A) :
  x ∈ l → p x = true → ∃ y, List.find p l = Some y.
Proof.
  induction 1 as [x l|x z l _ IH]; intros Hx; simpl.
  - rewrite Hx. eauto.
  - destruct (p z); eauto.
Qed.

Lemma cache_lookup_cons {V} (h k : string) (v : V) c :
  cache_lookup h ((k, v) :: c)
  = if bool_decide (k = h) then Some v else cache_lookup h c.
Proof. unfold cache_lookup. simpl. by destruct (bool_decide (k = h)). Qed.

Lemma cache_lookup_filter_ne {V} (h k : string) (c : list (string * V)) :
  k ≠ h →
  cache_lookup h (List.filter (fun kv => negb (bool_decide (kv.1 = k))) c)
  = cache_lookup h c.
Proof.
  intros Hne. induction c as [|[k' v'] c IH]; [done|]. simpl.
  destruct (bool_decide_reflect (k' = k)) as [->|Hk]; simpl.
  - rewrite cache_lookup_cons, bool_decide_false by done. exact IH.
  - rewrite !cache_lookup_cons, IH. done.
Qed.

Lemma cache_lookup_take {V} n (h : string) (c : list (string * V)) v :
  cache_lookup h (take n c) = Some v → cache_lookup h c = Some v.
Proof.
  revert n. induction c as [|[k' v'] c IH]; intros [|n]; simpl; try done.
  rewrite !cache_lookup_cons. destruct (bool_decide (k' = h)); [done|].
  apply IH.
Qed.

Lemma coherent_initial w : coherent w initial_state.
Proof. intros h v. by unfold cache_lookup. Qed.

(** On a coherent cache the decorated function returns what the
    undecorated one does. *)
Lemma get_maap_config_result w host s :
  coherent w s → (get_maap_config w host s).1 = get_maap_config_wrapped w host.
Proof.
  intros Hc. unfold get_maap_config.
  destruct (cache_lookup host (cache s)) as [v|] eqn:Hl; simpl.
  - symmetry. by apply Hc.
  - by destruct (get_maap_config_wrapped w host).
Qed.

Lemma get_maap_config_trace w host s :
  trace (get_maap_config w host s).2 = trace s.
Proof.
  unfold get_maap_config.
  destruct (cache_lookup host (cache s)); [done|].
  by destruct (get_maap_config_wrapped w host).
Qed.

(** Coherence is an invariant of resolution. *)
Lemma get_maap_config_coherent w host s :
  coherent w s → coherent w (get_maap_config w host s).2.
Proof.
  intros Hc h v. unfold get_maap_config.
  destruct (cache_lookup host (cache s)) as [v0|] eqn:Hl; simpl.
  - unfold cache_touch. rewrite cache_lookup_cons.
    destruct (bool_decide_reflect (host = h)) as [->|Hne].
    + intros [= <-]. by apply Hc.
    + rewrite cache_lookup_filter_ne by done. apply Hc.
  - destruct (get_maap_config_wrapped w host) as [v0|e] eqn:Hw; simpl.
    + intros Hv. apply cache_lookup_take in Hv.
      rewrite cache_lookup_cons in Hv.
      destruct (bool_decide_reflect (host = h)) as [->|Hne].
      * by injection Hv as <-.
      * by apply Hc.
    + apply Hc.
Qed.

(** ** [in] on two strings *)

Lemma append_cons a p q : String a p +:+ q = String a (p +:+ q).
Proof. reflexivity. Qed.

Lemma prefix_app p s : String.prefix p s = true ↔ ∃ post, s = p +:+ post.
Proof.
  revert p. induction s as [|b s IH]; intros [|a p]; simpl.
  - split; [by exists EmptyString|done].
  - split; [done|intros [post H]; discriminate].
  - split; [by exists (String b s)|done].
  - destruct (ascii_dec a b) as [->|Hne].
    + rewrite IH. split; intros [post H]; exists post;
        rewrite append_cons in *; congruence.
    + split; [done|]. intros [post H]. rewrite append_cons in H. congruence.
Qed.

(** [str_contains needle hay] holds exactly when [needle] occurs in
    [hay]. *)
Lemma str_contains_occurs needle hay :
  str_contains needle hay = true ↔ ∃ pre post, hay = pre +:+ needle +:+ post.
Proof.
  induction hay as [|c hay IH].
  - change (str_contains needle "")
      with (String.prefix needle "" || false).
    rewrite orb_false_r, prefix_app. split.
    + intros [post H]. by exists EmptyString, post.
    + intros ([|c pre] & post & H); [by exists post|discriminate].
  - change (str_contains needle (String c hay))
      with (String.prefix needle (String c hay) || str_contains needle hay).
    rewrite orb_true_iff, prefix_app, IH. split.
    + intros [[post H]|(pre & post & H)].
      * by exists EmptyString, post.
      * exists (String c pre), post. by rewrite append_cons, H.
    + intros ([|c' pre] & post & H).
      * left. by exists post.
      * right. exists pre, post. rewrite append_cons in H. congruence.
Qed.

Example empty_host_in_every_server :
  host_in "" (ade_server Sample.ops) = true.
Proof. reflexivity. Qed.

Example host_with_port_in_no_server :
  forallb (fun x => negb (host_in Sample.dit_with_port (ade_server x)))
          Sample.data = true.
Proof. reflexivity. Qed.

Section Resolution.

Variables (w : World) (data : list env_entry).
Hypothesis loaded : config_source w = Ok data.

Lemma wrapped_loaded host :
  get_maap_config_wrapped w host =
  Ok match List.find (fun x => host_in host (ade_server x)) data with
     | None => List.find (fun x => default_host x) data
     | Some m => Some m
     end.
Proof. unfold get_maap_config_wrapped. by rewrite loaded. Qed.

Lemma wrapped_first_match host pre x post :
  data = (pre ++ x :: post) →
  Forall (fun y => host_in host (ade_server y) = false) pre →
  host_in host (ade_server x) = true →
  get_maap_config_wrapped w host = Ok (Some x).
Proof.
  intros Hdata Hpre Hx. rewrite wrapped_loaded, Hdata.
  by rewrite (find_first _ pre x post Hpre Hx).
Qed.

Lemma wrapped_first_default host pre x post :
  Forall (fun y => host_in host (ade_server y) = false) data →
  data = (pre ++ x :: post) →
  Forall (fun y => default_host y = false) pre →
  default_host x = true →
  get_maap_config_wrapped w host = Ok (Some x).
Proof.
  intros Hno Hdata Hpre Hx. rewrite wrapped_loaded.
  rewrite (find_none _ data Hno). rewrite Hdata.
  by rewrite (find_first (fun y => default_host y) pre x post Hpre Hx).
Qed.

Lemma wrapped_nothing host :
  Forall (fun y => host_in host (ade_server y) = false) data →
  Forall (fun y => default_host y = false) data →
  get_maap_config_wrapped w host = Ok None.
Proof.
  intros Hno Hnd. rewrite wrapped_loaded.
  rewrite (find_none _ data Hno).
  by rewrite (find_none (fun y => default_host y) data Hnd).
Qed.

Lemma wrapped_some_if_default host d :
  d ∈ data → default_host d = true →
  ∃ c, get_maap_config_wrapped w host = Ok (Some c).
Proof.
  intros Hd Hdef. rewrite wrapped_loaded.
  destruct (List.find (fun x => host_in host (ade_server x)) data); [eauto|].
  destruct (find_some_exists (fun y => default_host y) data d Hd Hdef)
    as [c ->]. eauto.
Qed.

End Resolution.

Lemma maap_api_result w host s :
  (maap_api w host s).1 =
  match (get_maap_config w host s).1 with
  | Ok (Some c) => Ok (api_server c)
  | Ok None => Raise (TypeError "'NoneType' object is not subscriptable")
  | Raise e => Raise e
  end.
Proof.
  unfold maap_api, mbind, M_bind.
  destruct (get_maap_config w host s) as [[[c|]|e] s']; done.
Qed.

(** C3, as amended: the test of the code is [host in x['ade_server']].
    Resolution returns the first entry whose [ade_server] contains the
    host (as a substring of a string value, as an element of a list
    value); when no entry contains the host it returns the first entry
    whose [default_host] is true. *)
Theorem resolve_first_entry_containing_host
    (w : World) (data : list env_entry) (host : string) (s : State) :
  config_source w = Ok data →
  coherent w s →
  (∀ pre x post,
      data = (pre ++ x :: post) →
      Forall (fun y => host_in host (ade_server y) = false) pre →
      host_in host (ade_server x) = true →
      (get_maap_config w host s).1 = Ok (Some x))
  ∧ (Forall (fun y => host_in host (ade_server y) = false) data →
     ∀ pre x post,
       data = (pre ++ x :: post) →
       Forall (fun y => default_host y = false) pre →
       default_host x = true →
       (get_maap_config w host s).1 = Ok (Some x)).
Proof.
  intros Hload Hc. split.
  - intros pre x post Hd Hpre Hx. rewrite get_maap_config_result by done.
    by eapply wrapped_first_match.
  - intros Hno pre x post Hd Hpre Hx. rewrite get_maap_config_result by done.
    by eapply wrapped_first_default.
Qed.

Lemma resolve_first_entry_containing_host_witness :
  (get_maap_config (Sample.world Sample.data Sample.refused)
     "dit.example" initial_state).1 = Ok (Some Sample.dit)
  ∧ (get_maap_config (Sample.world Sample.data Sample.refused)
       "elsewhere.example.org" initial_state).1 = Ok (Some Sample.ops).
Proof.
  pose proof (resolve_first_entry_containing_host
                (Sample.world Sample.data Sample.refused) Sample.data) as H.
  split.
  - destruct (H "dit.example" initial_state eq_refl
                (coherent_initial _)) as [H1 _].
    apply (H1 [Sample.ops] Sample.dit [Sample.uat] eq_refl).
    + repeat constructor.
    + reflexivity.
  - destruct (H "elsewhere.example.org" initial_state eq_refl
                (coherent_initial _)) as [_ H2].
    apply (H2 ltac:(repeat constructor) [] Sample.ops [Sample.dit; Sample.uat]
              eq_refl).
    + constructor.
    + reflexivity.
Defined.

(** C3, as stated, fails: the pattern of [dit] is a substring of the
    host ["ade.dit.example.org:8888"] and of no earlier entry, yet the
    code resolves that host to the default entry [ops]. *)
Lemma resolve_pattern_in_host_counterexample :
  resolve_by_pattern_in_host Sample.data Sample.dit_with_port
    = Some Sample.dit
  ∧ (get_maap_config (Sample.world Sample.data Sample.refused)
       Sample.dit_with_port initial_state).1 = Ok (Some Sample.ops)
  ∧ Sample.ops ≠ Sample.dit.
Proof. split; [|split]; [vm_compute; reflexivity.. | discriminate]. Qed.

(** C10: when no entry contains the host and no entry is marked as
    default, resolution returns [None] and [maap_api] raises; when some
    entry is marked as default, resolution returns an entry for every
    host. *)
Theorem resolve_none_without_default
    (w : World) (data : list env_entry) (host : string) (s : State) :
  config_source w = Ok data →
  coherent w s →
  (Forall (fun y => host_in host (ade_server y) = false) data →
   Forall (fun y => default_host y = false) data →
   (get_maap_config w host s).1 = Ok None
   ∧ (maap_api w host s).1
     = Raise (TypeError "'NoneType' object is not subscriptable"))
  ∧ (∀ d, d ∈ data → default_host d = true →
     ∃ c, (get_maap_config w host s).1 = Ok (Some c)
          ∧ (maap_api w host s).1 = Ok (api_server c)).
Proof.
  intros Hload Hc. split.
  - intros Hno Hnd.
    assert ((get_maap_config w host s).1 = Ok None) as Hr.
    { rewrite get_maap_config_result by done. by eapply wrapped_nothing. }
    split; [done|]. by rewrite maap_api_result, Hr.
  - intros d Hd Hdef.
    destruct (wrapped_some_if_default w data Hload host d Hd Hdef) as [c Hw].
    exists c.
    assert ((get_maap_config w host s).1 = Ok (Some c)) as Hr.
    { by rewrite get_maap_config_result. }
    split; [done|]. by rewrite maap_api_result, Hr.
Qed.

Lemma resolve_none_without_default_witness :
  (get_maap_config (Sample.world Sample.no_default Sample.refused)
     "elsewhere.example.org" initial_state).1 = Ok None
  ∧ (maap_api (Sample.world Sample.no_default Sample.refused)
       "elsewhere.example.org" initial_state).1
    = Raise (TypeError "'NoneType' object is not subscriptable").
Proof.
  apply (resolve_none_without_default
           (Sample.world Sample.no_default Sample.refused)
           Sample.no_default "elsewhere.example.org" initial_state
           eq_refl (coherent_initial _)).
  - repeat constructor.
  - repeat constructor.
Defined.

(** ** [parse_params] *)

Lemma parse_params_snoc args key value :
  parse_params (args ++ [(key, value)]) =
  (params ← parse_params args;
   v0 ← item0 value;
   s ← decode_utf8 v0;
   Ok (<[key := s]> params)).
Proof. unfold parse_params. by rewrite foldl_snoc. Qed.

Lemma parse_params_raise_app args rest e :
  parse_params args = Raise e → parse_params (args ++ rest) = Raise e.
Proof.
  revert args. induction rest as [|[key value] rest IH]; intros args Hr.
  - by rewrite app_nil_r.
  - rewrite cons_middle, (assoc_L (++)). apply IH.
    by rewrite parse_params_snoc, Hr.
Qed.

Lemma parse_params_snoc_ok args key value params t :
  parse_params args = Ok params → first_value_decodes value t →
  parse_params (args ++ [(key, value)]) = Ok (<[key := t]> params).
Proof.
  intros Hp (v0 & Hh & Hd). rewrite parse_params_snoc, Hp. simpl.
  destruct value as [|v0' value]; simplify_eq/=. by rewrite Hd.
Qed.

(** [parse_params] raises at the first entry whose value list is empty
    or whose first value does not decode. *)
Lemma parse_params_raises pre key value post e :
  (∀ k v, (k, v) ∈ pre → ∃ t, first_value_decodes v t) →
  (item0 value ≫= decode_utf8) = Raise e →
  parse_params (pre ++ (key, value) :: post) = Raise e.
Proof.
  intros Hpre He.
  assert (∃ params, parse_params pre = Ok params) as [params Hp].
  { clear He. induction pre as [|[k v] pre IH] using rev_ind.
    - by exists ∅.
    - destruct IH as [p Hp].
      { intros k' v' Hin. apply (Hpre k' v'), elem_of_app. by left. }
      destruct (Hpre k v) as [t Ht].
      { apply elem_of_app. right. by apply list_elem_of_singleton. }
      exists (<[k := t]> p). by apply parse_params_snoc_ok. }
  rewrite cons_middle, (assoc_L (++)). apply parse_params_raise_app.
  rewrite parse_params_snoc, Hp. unfold mbind, result_bind in *.
  destruct (item0 value) as [v0|e0]; [|congruence].
  destruct (decode_utf8 v0); congruence.
Qed.

(** [parse_params] returns only when every entry has a first value
    that decodes. *)
Lemma parse_params_ok_inv args params :
  parse_params args = Ok params →
  ∀ k v, (k, v) ∈ args → ∃ t, first_value_decodes v t.
Proof.
  revert params.
  induction args as [|[key value] args IH] using rev_ind;
    intros params Hp k v Hin.
  - by apply elem_of_nil in Hin.
  - rewrite parse_params_snoc in Hp. unfold mbind, result_bind in Hp.
    destruct (parse_params args) as [p|] eqn:Hargs; [|done].
    apply elem_of_app in Hin as [Hin|Hin%list_elem_of_singleton].
    + by apply (IH p eq_refl k v).
    + injection Hin as -> ->.
      destruct value as [|v0 value]; [done|]. simpl in Hp.
      destruct (decode_utf8 v0) as [t|] eqn:Hd; [|done].
      exists t, v0. by split.
Qed.

Lemma parse_params_decodable (args : list (string * list bytes)) :
  NoDup args.*1 →
  (∀ k v, (k, v) ∈ args → ∃ t, first_value_decodes v t) →
  ∃ params : gmap string text,
    parse_params args = Ok params
    ∧ (∀ k, is_Some (params !! k) ↔ k ∈ args.*1)
    ∧ (∀ k v, (k, v) ∈ args →
       ∃ v0 t, head v = Some v0 ∧ decode_utf8 v0 = Ok t
               ∧ params !! k = Some t).
Proof.
  induction args as [|[key value] args IH] using rev_ind; intros Hnd Hall.
  - exists ∅. split; [done|]. split.
    + intros k. rewrite lookup_empty. split; [by intros []|by inversion 1].
    + intros k v Hin. by inversion Hin.
  - rewrite fmap_app in Hnd. apply NoDup_app in Hnd as (Hnd & Hfresh & _).
    destruct IH as (params & Hp & Hkeys & Hvals); [done|..].
    { intros k v Hin. apply (Hall k v), elem_of_app. by left. }
    destruct (Hall key value) as [t Ht].
    { apply elem_of_app. right. by apply list_elem_of_singleton. }
    exists (<[key := t]> params). split; [by apply parse_params_snoc_ok|].
    split.
    + intros k. rewrite lookup_insert_is_Some, fmap_app, elem_of_app, Hkeys.
      simpl. rewrite list_elem_of_singleton.
      destruct (decide (key = k)) as [->|]; intuition congruence.
    + intros k v [Hin|Hin%list_elem_of_singleton]%elem_of_app.
      * destruct (Hvals k v Hin) as (v0 & t' & ? & ? & ?).
        exists v0, t'. split_and!; [done..|].
        rewrite lookup_insert_ne; [done|]. intros ->.
        apply (Hfresh k); [|by apply list_elem_of_singleton].
        by apply (list_elem_of_fmap_2 fst _ (k, v)).
      * injection Hin as -> ->. destruct Ht as (v0 & ? & ?).
        exists v0, t. by rewrite lookup_insert_eq.
Qed.

(** C5: for every argument mapping, [parse_params] returns as soon as
    each value list starts with a value that is valid UTF-8, and
    whenever it returns, the mapping it returns has exactly the keys of
    the input, each bound to the decoding of the first value of its
    list. *)
Theorem parse_params_first_decoded_value (args : list (string * list bytes)) :
  NoDup args.*1 →
  ((∀ k v, (k, v) ∈ args → ∃ t, first_value_decodes v t) →
   ∃ params : gmap string text, parse_params args = Ok params)
  ∧ (∀ params : gmap string text,
       parse_params args = Ok params →
       (∀ k, is_Some (params !! k) ↔ k ∈ args.*1)
       ∧ (∀ k v, (k, v) ∈ args →
          ∃ v0 t, head v = Some v0 ∧ decode_utf8 v0 = Ok t
                  ∧ params !! k = Some t)).
Proof.
  intros Hnd. split.
  - intros Hall.
    destruct (parse_params_decodable args Hnd Hall) as (params & Hp & _).
    by exists params.
  - intros params Hp.
    destruct (parse_params_decodable args Hnd (parse_params_ok_inv _ _ Hp))
      as (params' & Hp' & Hprops).
    rewrite Hp in Hp'. by injection Hp' as <-.
Qed.

Lemma parse_params_first_decoded_value_witness :
  (∃ params : gmap string text, parse_params Sample.repeated = Ok params)
  ∧ (∀ params : gmap string text,
       parse_params Sample.repeated = Ok params →
       (∀ k, is_Some (params !! k) ↔ k ∈ Sample.repeated.*1)
       ∧ (∀ k v, (k, v) ∈ Sample.repeated →
          ∃ v0 t, head v = Some v0 ∧ decode_utf8 v0 = Ok t
                  ∧ params !! k = Some t)).
Proof.
  assert (NoDup Sample.repeated.*1) as Hnd.
  { apply NoDup_cons. split; [|apply NoDup_singleton].
    intros Hin%list_elem_of_singleton. discriminate. }
  destruct (parse_params_first_decoded_value Sample.repeated Hnd)
    as [Hreturns Hright].
  split; [|exact Hright].
  apply Hreturns. intros k v Hin.
  apply elem_of_cons in Hin as [Heq|Hin];
    [injection Heq as -> ->; exists Sample.j1; eexists; split;
     [reflexivity | vm_compute; reflexivity]|].
  apply elem_of_cons in Hin as [Heq|Hin];
    [injection Heq as -> ->; exists [233%N]; eexists; split;
     [reflexivity | vm_compute; reflexivity]|].
  by apply elem_of_nil in Hin.
Defined.

Example parse_params_repeated :
  parse_params Sample.repeated
  = Ok (<["username" := [233%N]]> (<["job_id" := Sample.j1]> ∅)).
Proof. vm_compute. reflexivity. Qed.

(** ** Running the handlers *)

Lemma get_skeleton w h self : get w h self = skeleton w h self.
Proof. by destruct h. Qed.

Lemma bind_ok {A B} (m : M A) (f : A → M B) s a s' :
  m s = (Ok a, s') → (m ≫= f) s = f a s'.
Proof. intros H. unfold mbind, M_bind. by rewrite H. Qed.

Lemma bind_raise {A B} (m : M A) (f : A → M B) s e s' :
  m s = (Raise e, s') → (m ≫= f) s = (Raise e, s').
Proof. intros H. unfold mbind, M_bind. by rewrite H. Qed.

Lemma try_ok {A} (block handler : M A) s a s' :
  block s = (Ok a, s') → try_except block handler s = (Ok a, s').
Proof. intros H. unfold try_except. by rewrite H. Qed.

Lemma try_raise {A} (block handler : M A) s e s' :
  block s = (Raise e, s') → try_except block handler s = handler s'.
Proof. intros H. unfold try_except. by rewrite H. Qed.

Lemma call_ok maap m args resp s :
  maap m args = Ok resp →
  call maap m args s = (Ok resp, after s [RemoteCall m args]).
Proof. intros H. unfold call, mbind, M_bind, emit, lift. simpl. by rewrite H. Qed.

Lemma call_raise maap m args e s :
  maap m args = Raise e →
  call maap m args s = (Raise e, after s [RemoteCall m args]).
Proof. intros H. unfold call, mbind, M_bind, emit, lift. simpl. by rewrite H. Qed.

Lemma finish_after chunk s evs :
  finish chunk (after s evs) = (Ok tt, after s (evs ++ [Finish chunk])).
Proof. unfold finish, emit, after. simpl. by rewrite (assoc_L (++)). Qed.

(** The [except] clause stops at [logging.ERROR(msg)]: it raises
    [TypeError], emits no log record and never reaches [self.finish]. *)
Lemma except_clause_raises self s :
  except_clause self s = (Raise not_callable, s).
Proof. reflexivity. Qed.

Lemma maap_api_trace w host s : trace (maap_api w host s).2 = trace s.
Proof.
  unfold maap_api, mbind, M_bind.
  pose proof (get_maap_config_trace w host s) as Ht.
  destruct (get_maap_config w host s) as [[[c|]|e] s']; done.
Qed.

(** The handler up to the client call. *)
Lemma get_upto_call w h self s api s1 maap args :
  maap_api w (host self) s = (Ok api, s1) →
  MAAP w api = Ok maap →
  call_args h (arguments self) = Ok args →
  get w h self s =
  try_except (resp ← call maap (remote_method h) args; respond h resp)
             (except_clause self) s1.
Proof.
  intros Hapi Hmaap Hargs. rewrite get_skeleton. unfold skeleton.
  rewrite (bind_ok _ _ _ _ _ Hapi).
  rewrite (bind_ok _ _ s1 maap s1) by (unfold lift; by rewrite Hmaap).
  unfold call_args in Hargs.
  destruct (required_param h) as [key|]; [|by injection Hargs as <-].
  destruct (parse_params (arguments self)) as [params|] eqn:Hp; [|done].
  rewrite (bind_ok _ _ s1 params s1) by done.
  unfold mbind at 1, result_bind in Hargs.
  destruct (getitem params key) as [v|] eqn:Hv; [|done].
  injection Hargs as <-. unfold try_except.
  by rewrite (bind_ok _ _ s1 v s1) by done.
Qed.

Lemma get_call_raises w h self s api s1 maap args e :
  maap_api w (host self) s = (Ok api, s1) →
  MAAP w api = Ok maap →
  call_args h (arguments self) = Ok args →
  maap (remote_method h) args = Raise e →
  get w h self s
  = except_clause self (after s1 [RemoteCall (remote_method h) args]).
Proof.
  intros Hapi Hmaap Hargs Hcall.
  rewrite (get_upto_call w h self s api s1 maap args) by done.
  eapply try_raise, bind_raise. by apply call_raise.
Qed.

Lemma get_call_returns w h self s api s1 maap args resp :
  maap_api w (host self) s = (Ok api, s1) →
  MAAP w api = Ok maap →
  call_args h (arguments self) = Ok args →
  maap (remote_method h) args = Ok resp →
  get w h self s
  = try_except (respond h resp) (except_clause self)
               (after s1 [RemoteCall (remote_method h) args]).
Proof.
  intros Hapi Hmaap Hargs Hcall.
  rewrite (get_upto_call w h self s api s1 maap args) by done.
  unfold try_except.
  by rewrite (bind_ok _ _ _ _ _ (call_ok maap _ args resp s1 Hcall)).
Qed.

(** ** Envelopes of a call that returns *)

(** C4: on every route that tests [resp.ok], when the client call
    returns [resp], the handler finishes with the remote status code
    and the parsed JSON body if [resp.ok], and with the remote status
    code and the raw text of the body otherwise. *)
Theorem branching_route_envelope
    (w : World) (h : handler_class) (self : Request) (s s1 : State)
    (api : string) (maap : client) (args : list text) (resp : Response) :
  h ≠ DescribeCapabilitiesHandler →
  maap_api w (host self) s = (Ok api, s1) →
  MAAP w api = Ok maap →
  call_args h (arguments self) = Ok args →
  maap (remote_method h) args = Ok resp →
  (resp_ok resp = true → ∀ j, resp_json resp = Ok j →
   get w h self s
   = (Ok tt, after s1 [RemoteCall (remote_method h) args;
                       Finish {| status_code := resp_status_code resp;
                                 response := Json j |}]))
  ∧ (resp_ok resp = false →
     get w h self s
     = (Ok tt, after s1 [RemoteCall (remote_method h) args;
                         Finish {| status_code := resp_status_code resp;
                                   response := Text (resp_text resp) |}])).
Proof.
  intros Hh Hapi Hmaap Hargs Hcall.
  rewrite (get_call_returns w h self s api s1 maap args resp) by done.
  assert (branches h = true) as Hb by by destruct h.
  unfold respond. rewrite Hb. split.
  - intros -> j Hj. apply try_ok.
    rewrite (bind_ok _ _ _ j (after s1 [RemoteCall (remote_method h) args]))
      by (unfold lift; by rewrite Hj).
    apply finish_after.
  - intros ->. apply try_ok, finish_after.
Qed.

Lemma branching_route_envelope_witness :
  get (Sample.world Sample.data (Sample.always (Ok Sample.accepted)))
      RevokeJobHandler Sample.revoke_j1 initial_state
  = (Ok tt, after Sample.ops_resolved
              [RemoteCall deleteJob [Sample.j1];
               Finish {| status_code := 200;
                         response := Json (JObj [("id", JStr "j-1")]) |}])
  ∧ get (Sample.world Sample.data (Sample.always (Ok Sample.rejected)))
        JobStatusHandler Sample.revoke_j1 initial_state
    = (Ok tt, after Sample.ops_resolved
                [RemoteCall getJobStatus [Sample.j1];
                 Finish {| status_code := 400;
                           response := Text "<Error>bad id</Error>" |}]).
Proof.
  split.
  - refine (proj1 (branching_route_envelope
             (Sample.world Sample.data (Sample.always (Ok Sample.accepted)))
             RevokeJobHandler Sample.revoke_j1 initial_state
             Sample.ops_resolved "api.ops.example.org"
             (Sample.always (Ok Sample.accepted)) [Sample.j1] Sample.accepted
             _ _ _ _ _) eq_refl _ eq_refl);
      [discriminate | vm_compute; reflexivity..].
  - refine (proj2 (branching_route_envelope
             (Sample.world Sample.data (Sample.always (Ok Sample.rejected)))
             JobStatusHandler Sample.revoke_j1 initial_state
             Sample.ops_resolved "api.ops.example.org"
             (Sample.always (Ok Sample.rejected)) [Sample.j1] Sample.rejected
             _ _ _ _ _) eq_refl);
      [discriminate | vm_compute; reflexivity..].
Defined.

(** C9: on [describeCapabilities] every response that the client call
    returns is passed through, whatever [resp.ok] says: the handler
    finishes with the remote status code and the raw text of the body. *)
Theorem describe_capabilities_passes_through
    (w : World) (self : Request) (s s1 : State)
    (api : string) (maap : client) (resp : Response) :
  maap_api w (host self) s = (Ok api, s1) →
  MAAP w api = Ok maap →
  maap getCapabilities [] = Ok resp →
  get w DescribeCapabilitiesHandler self s
  = (Ok tt, after s1 [RemoteCall getCapabilities [];
                      Finish {| status_code := resp_status_code resp;
                                response := Text (resp_text resp) |}]).
Proof.
  intros Hapi Hmaap Hcall.
  rewrite (get_call_returns w DescribeCapabilitiesHandler self s api s1
             maap [] resp) by done.
  apply try_ok, finish_after.
Qed.

Lemma describe_capabilities_passes_through_witness :
  get (Sample.world Sample.data (Sample.always (Ok Sample.rejected)))
      DescribeCapabilitiesHandler Sample.capabilities initial_state
  = (Ok tt, after Sample.ops_resolved
              [RemoteCall getCapabilities [];
               Finish {| status_code := 400;
                         response := Text "<Error>bad id</Error>" |}]).
Proof.
  apply (describe_capabilities_passes_through
           (Sample.world Sample.data (Sample.always (Ok Sample.rejected)))
           Sample.capabilities initial_state Sample.ops_resolved
           "api.ops.example.org" (Sample.always (Ok Sample.rejected))
           Sample.rejected);
    vm_compute; reflexivity.
Defined.

(** ** The [except] clause *)

(** Whenever the client call raises, on any route, the handler ends in
    the [TypeError] of [logging.ERROR(msg)]: the trace gains the remote
    call only, no log record and no envelope. *)
Lemma remote_error_ends_in_type_error w h self s api s1 maap args e :
  maap_api w (host self) s = (Ok api, s1) →
  MAAP w api = Ok maap →
  call_args h (arguments self) = Ok args →
  maap (remote_method h) args = Raise e →
  get w h self s
  = (Raise not_callable, after s1 [RemoteCall (remote_method h) args]).
Proof.
  intros. rewrite (get_call_raises w h self s api s1 maap args e) by done.
  apply except_clause_raises.
Qed.

(** C1, at a request the code can receive: the client refuses the
    connection during [revokeJob?job_id=j-1].  The handler raises
    [TypeError] out of its [except] clause; the trace holds the remote
    call and neither a log record nor the 500 envelope. *)
Theorem revoke_connection_refused_no_envelope :
  get (Sample.world Sample.data Sample.refused)
      RevokeJobHandler Sample.revoke_j1 initial_state
  = (Raise (TypeError "'int' object is not callable"),
     {| cache := [("ade.ops.example.org", Some Sample.ops)];
        trace := [RemoteCall deleteJob [Sample.j1]] |}).
Proof. vm_compute. reflexivity. Qed.

(** A required parameter that is missing, on any route that has one,
    ends the same way, before any remote call. *)
Lemma missing_param_ends_in_type_error w h self s api s1 maap key params :
  maap_api w (host self) s = (Ok api, s1) →
  MAAP w api = Ok maap →
  required_param h = Some key →
  parse_params (arguments self) = Ok params →
  params !! key = None →
  get w h self s = except_clause self s1.
Proof.
  intros Hapi Hmaap Hkey Hp Hnone. rewrite get_skeleton. unfold skeleton.
  rewrite (bind_ok _ _ _ _ _ Hapi).
  rewrite (bind_ok _ _ s1 maap s1) by (unfold lift; by rewrite Hmaap).
  rewrite Hkey.
  rewrite (bind_ok _ _ s1 params s1) by (unfold lift; by rewrite Hp).
  eapply try_raise, bind_raise. unfold lift, getitem. by rewrite Hnone.
Qed.

(** C6, at a request the code can receive: [revokeJob] without
    [job_id].  [params["job_id"]] raises [KeyError] inside [try]; the
    [except] clause raises [TypeError] at [logging.ERROR(msg)], and no
    envelope is written. *)
Theorem revoke_without_job_id_no_envelope :
  get (Sample.world Sample.data (Sample.always (Ok Sample.accepted)))
      RevokeJobHandler Sample.revoke_no_job_id initial_state
  = (Raise (TypeError "'int' object is not callable"),
     {| cache := [("ade.ops.example.org", Some Sample.ops)];
        trace := [] |}).
Proof. vm_compute. reflexivity. Qed.

(** ** Errors raised outside [try] *)

Lemma get_api_raises w h self s e s1 :
  maap_api w (host self) s = (Raise e, s1) → get w h self s = (Raise e, s1).
Proof.
  intros Hapi. rewrite get_skeleton. unfold skeleton.
  by rewrite (bind_raise _ _ _ _ _ Hapi).
Qed.

Lemma get_constructor_raises w h self s api s1 e :
  maap_api w (host self) s = (Ok api, s1) → MAAP w api = Raise e →
  get w h self s = (Raise e, s1).
Proof.
  intros Hapi Hmaap. rewrite get_skeleton. unfold skeleton.
  rewrite (bind_ok _ _ _ _ _ Hapi).
  by rewrite (bind_raise _ _ s1 e s1) by (unfold lift; by rewrite Hmaap).
Qed.

Lemma get_parse_raises w h self s api s1 maap key e :
  maap_api w (host self) s = (Ok api, s1) → MAAP w api = Ok maap →
  required_param h = Some key →
  parse_params (arguments self) = Raise e →
  get w h self s = (Raise e, s1).
Proof.
  intros Hapi Hmaap Hkey Hp. rewrite get_skeleton. unfold skeleton.
  rewrite (bind_ok _ _ _ _ _ Hapi).
  rewrite (bind_ok _ _ s1 maap s1) by (unfold lift; by rewrite Hmaap).
  rewrite Hkey.
  by rewrite (bind_raise _ _ s1 e s1) by (unfold lift; by rewrite Hp).
Qed.

Lemma get_json_raises w h self s api s1 maap args resp e :
  branches h = true →
  maap_api w (host self) s = (Ok api, s1) → MAAP w api = Ok maap →
  call_args h (arguments self) = Ok args →
  maap (remote_method h) args = Ok resp →
  resp_ok resp = true → resp_json resp = Raise e →
  get w h self s
  = except_clause self (after s1 [RemoteCall (remote_method h) args]).
Proof.
  intros Hb Hapi Hmaap Hargs Hcall Hok Hj.
  rewrite (get_call_returns w h self s api s1 maap args resp) by done.
  unfold respond. rewrite Hb, Hok.
  eapply try_raise, bind_raise. unfold lift. by rewrite Hj.
Qed.

(** C2, as amended: an error raised before [try] is not caught.  When
    environment resolution, the client constructor or [parse_params]
    raises (for [parse_params]: in particular [UnicodeDecodeError], on a
    first value that is not valid UTF-8), the handler raises the same
    exception and its trace is the one it started with: no envelope is
    written.  An error raised inside [try] (a missing required
    parameter, the client call, [resp.json()]) hands control to the
    [except] clause. *)
Theorem errors_before_try_propagate
    (w : World) (h : handler_class) (self : Request) (s : State) :
  (∀ e s1, maap_api w (host self) s = (Raise e, s1) →
           get w h self s = (Raise e, s1) ∧ trace s1 = trace s)
  ∧ (∀ api s1, maap_api w (host self) s = (Ok api, s1) →
     (∀ e, MAAP w api = Raise e →
           get w h self s = (Raise e, s1) ∧ trace s1 = trace s)
     ∧ (∀ maap key, MAAP w api = Ok maap → required_param h = Some key →
        (∀ e, parse_params (arguments self) = Raise e →
              get w h self s = (Raise e, s1) ∧ trace s1 = trace s)
        ∧ (∀ pre k v0 value post,
             arguments self = (pre ++ (k, v0 :: value) :: post) →
             (∀ k' v', (k', v') ∈ pre → ∃ t, first_value_decodes v' t) →
             Utf8.decode (Byte.to_N <$> v0) = None →
             get w h self s = (Raise UnicodeDecodeError, s1)
             ∧ trace s1 = trace s)
        ∧ (∀ params, parse_params (arguments self) = Ok params →
                     params !! key = None →
                     get w h self s = except_clause self s1))
     ∧ (∀ maap args, MAAP w api = Ok maap →
        call_args h (arguments self) = Ok args →
        (∀ e, maap (remote_method h) args = Raise e →
              get w h self s
              = except_clause self
                  (after s1 [RemoteCall (remote_method h) args]))
        ∧ (∀ resp e, branches h = true →
             maap (remote_method h) args = Ok resp →
             resp_ok resp = true → resp_json resp = Raise e →
             get w h self s
             = except_clause self
                 (after s1 [RemoteCall (remote_method h) args])))).
Proof.
  assert (∀ r s1, maap_api w (host self) s = (r, s1) → trace s1 = trace s)
    as Htrace.
  { intros r s1 H. by rewrite <- (maap_api_trace w (host self) s), H. }
  split.
  - intros e s1 Hapi. split; [by apply get_api_raises | by eapply Htrace].
  - intros api s1 Hapi. split; [|split].
    + intros e Hmaap.
      split; [by eapply get_constructor_raises | by eapply Htrace].
    + intros maap key Hmaap Hkey. split; [|split].
      * intros e Hp.
        split; [by eapply get_parse_raises | by eapply Htrace].
      * intros pre k v0 value post Hargs Hpre Hbad.
        split; [|by eapply Htrace].
        eapply get_parse_raises; [done..|].
        rewrite Hargs. apply parse_params_raises; [done|].
        unfold mbind, result_bind, decode_utf8. simpl. by rewrite Hbad.
      * intros params Hp Hnone. by eapply missing_param_ends_in_type_error.
    + intros maap args Hmaap Hargs. split.
      * intros e Hcall. by eapply get_call_raises.
      * intros resp e Hb Hcall Hok Hj. by eapply get_json_raises.
Qed.

Lemma errors_before_try_propagate_witness :
  get (Sample.world Sample.data (Sample.always (Ok Sample.accepted)))
      RevokeJobHandler Sample.revoke_bad_utf8 initial_state
  = (Raise UnicodeDecodeError, Sample.ops_resolved)
  ∧ trace Sample.ops_resolved = trace initial_state.
Proof.
  pose proof (errors_before_try_propagate
    (Sample.world Sample.data (Sample.always (Ok Sample.accepted)))
    RevokeJobHandler Sample.revoke_bad_utf8 initial_state) as [_ H].
  destruct (H "api.ops.example.org" Sample.ops_resolved eq_refl)
    as (_ & Hparse & _).
  destruct (Hparse (Sample.always (Ok Sample.accepted)) "job_id"
              eq_refl eq_refl) as (_ & Hbad & _).
  apply (Hbad [] "job_id" [Byte.xff] [] [] eq_refl).
  - intros k v Hin. by apply elem_of_nil in Hin.
  - reflexivity.
Defined.

(** C2, as stated, fails: [revokeJob?job_id=%FF] makes [parse_params]
    raise [UnicodeDecodeError] before [try]; the exception leaves the
    handler and no envelope is written. *)
Lemma encoding_error_escapes_counterexample :
  (get (Sample.world Sample.data (Sample.always (Ok Sample.accepted)))
       RevokeJobHandler Sample.revoke_bad_utf8 initial_state).1
  = Raise UnicodeDecodeError
  ∧ ∀ chunk,
      Finish chunk ∉
        trace (get (Sample.world Sample.data
                      (Sample.always (Ok Sample.accepted)))
                   RevokeJobHandler Sample.revoke_bad_utf8 initial_state).2.
Proof.
  split; [vm_compute; reflexivity|].
  intros chunk Hin. vm_compute in Hin. by apply elem_of_nil in Hin.
Qed.

(** ** [submitJob] *)

Lemma call_trace maap m args s :
  trace (call maap m args s).2 = trace s ++ [RemoteCall m args].
Proof. unfold call, mbind, M_bind, emit, lift. simpl. done. Qed.

(** C7, as amended: [submitJob] extracts no parameter and calls the
    client's [submitJob] with no argument.  The handler gives the same
    outcome whatever the arguments and the body of the request are; the
    only remote call it adds to the trace is [submitJob()]; and once
    the API host is resolved and the client constructed it does make
    that call, first of all, and what the call gives decides the rest:
    the envelope of the response it returns, or the [except] clause when
    it raises. *)
Theorem submit_job_ignores_request_arguments
    (w : World) (self : Request) (args' : list (string * list bytes))
    (body' : bytes) (s : State) :
  get w SubmitJobHandler self s
  = get w SubmitJobHandler
        {| host := host self; uri := uri self;
           arguments := args'; body := body' |} s
  ∧ (∀ m a, RemoteCall m a ∈ trace (get w SubmitJobHandler self s).2 →
            RemoteCall m a ∈ trace s ∨ (m = submitJob ∧ a = []))
  ∧ ∀ api s1 maap,
      maap_api w (host self) s = (Ok api, s1) →
      MAAP w api = Ok maap →
      (∃ evs, trace (get w SubmitJobHandler self s).2
              = trace s ++ RemoteCall submitJob [] :: evs)
      ∧ (∀ resp j,
           maap submitJob [] = Ok resp →
           resp_ok resp = true → resp_json resp = Ok j →
           get w SubmitJobHandler self s
           = (Ok tt, after s1 [RemoteCall submitJob [];
                               Finish {| status_code := resp_status_code resp;
                                         response := Json j |}]))
      ∧ (∀ resp,
           maap submitJob [] = Ok resp →
           resp_ok resp = false →
           get w SubmitJobHandler self s
           = (Ok tt, after s1 [RemoteCall submitJob [];
                               Finish {| status_code := resp_status_code resp;
                                         response := Text (resp_text resp) |}]))
      ∧ (∀ e,
           maap submitJob [] = Raise e →
           get w SubmitJobHandler self s
           = except_clause self (after s1 [RemoteCall submitJob []])).
Proof.
  split; [reflexivity|]. split.
  { intros m a. rewrite get_skeleton. unfold skeleton. simpl.
    unfold mbind at 1, M_bind.
    pose proof (maap_api_trace w (host self) s) as Ht.
    destruct (maap_api w (host self) s) as [[api|e] s1]; simpl in Ht;
      [|simpl; rewrite Ht; by left].
    unfold mbind at 1, M_bind, lift at 1.
    destruct (MAAP w api) as [maap|e]; [|simpl; rewrite Ht; by left].
    unfold try_except, mbind at 1, M_bind.
    pose proof (call_trace maap submitJob [] s1) as Hc.
    assert (∀ tr, trace s1 ++ [RemoteCall submitJob []] = tr ∨
                  (∃ chunk, (trace s1 ++ [RemoteCall submitJob []])
                            ++ [Finish chunk] = tr) →
                  RemoteCall m a ∈ tr →
                  RemoteCall m a ∈ trace s ∨ (m = submitJob ∧ a = [])) as Hin.
    { intros tr [<-|[chunk <-]]; rewrite ?elem_of_app, Ht;
        rewrite !list_elem_of_singleton.
      - intros [H|H]; [by left|]. injection H as -> ->. by right.
      - intros [[H|H]|H]; [by left| |discriminate].
        injection H as -> ->. by right. }
    destruct (call maap submitJob [] s1) as [[resp|e] s2]; simpl in Hc.
    - unfold respond. cbn [branches].
      destruct (resp_ok resp).
      + unfold mbind, M_bind, lift.
        destruct (resp_json resp) as [j|e]; cbn [fst snd].
        * apply Hin. right. eexists. unfold finish, emit. simpl.
          by rewrite <- Hc.
        * unfold except_clause. simpl. apply Hin. by left.
      + unfold finish, emit. simpl. apply Hin. right. eexists.
        by rewrite <- Hc.
    - simpl. apply Hin. by left. }
  intros api s1 maap Hapi Hmaap.
  assert (trace s1 = trace s) as Ht
    by (by rewrite <- (maap_api_trace w (host self) s), Hapi).
  assert (call_args SubmitJobHandler (arguments self) = Ok []) as Hargs
    by done.
  assert (∀ resp j,
            maap submitJob [] = Ok resp →
            resp_ok resp = true → resp_json resp = Ok j →
            get w SubmitJobHandler self s
            = (Ok tt, after s1 [RemoteCall submitJob [];
                                Finish {| status_code := resp_status_code resp;
                                          response := Json j |}])) as Hjson.
  { intros resp j Hcall Hok Hj.
    rewrite (get_call_returns w SubmitJobHandler self s api s1 maap [] resp)
      by done.
    unfold respond. cbn [branches]. rewrite Hok. apply try_ok.
    rewrite (bind_ok _ _ _ j (after s1 [RemoteCall submitJob []]))
      by (unfold lift; by rewrite Hj).
    apply finish_after. }
  assert (∀ resp,
            maap submitJob [] = Ok resp →
            resp_ok resp = false →
            get w SubmitJobHandler self s
            = (Ok tt, after s1 [RemoteCall submitJob [];
                                Finish {| status_code := resp_status_code resp;
                                          response := Text (resp_text resp) |}]))
    as Htext.
  { intros resp Hcall Hok.
    rewrite (get_call_returns w SubmitJobHandler self s api s1 maap [] resp)
      by done.
    unfold respond. cbn [branches]. rewrite Hok.
    apply try_ok, finish_after. }
  assert (∀ e,
            maap submitJob [] = Raise e →
            get w SubmitJobHandler self s
            = except_clause self (after s1 [RemoteCall submitJob []]))
    as Hraise.
  { intros e Hcall.
    by apply (get_call_raises w SubmitJobHandler self s api s1 maap [] e). }
  split; [|by split_and!].
  destruct (maap submitJob []) as [resp|e] eqn:Hcall.
  - destruct (resp_ok resp) eqn:Hok.
    + destruct (resp_json resp) as [j|e] eqn:Hj.
      * rewrite (Hjson resp j eq_refl Hok Hj). simpl. rewrite Ht. by eexists.
      * rewrite (get_json_raises w SubmitJobHandler self s api s1 maap []
                   resp e) by done.
        rewrite except_clause_raises. simpl. rewrite Ht. by eexists.
    + rewrite (Htext resp eq_refl Hok). simpl. rewrite Ht. by eexists.
  - rewrite (Hraise e eq_refl), except_clause_raises. simpl. rewrite Ht.
    by eexists.
Qed.

Lemma submit_job_ignores_request_arguments_witness :
  (∃ evs,
     trace (get (Sample.world Sample.data (Sample.always (Ok Sample.accepted)))
                SubmitJobHandler Sample.submit_with_payload initial_state).2
     = trace initial_state ++ RemoteCall submitJob [] :: evs)
  ∧ get (Sample.world Sample.data Sample.refused)
        SubmitJobHandler Sample.submit_with_payload initial_state
    = except_clause Sample.submit_with_payload
        (after Sample.ops_resolved [RemoteCall submitJob []]).
Proof.
  split.
  - destruct (submit_job_ignores_request_arguments
                (Sample.world Sample.data (Sample.always (Ok Sample.accepted)))
                Sample.submit_with_payload [] [] initial_state)
      as (_ & _ & H).
    destruct (H "api.ops.example.org" Sample.ops_resolved
                (Sample.always (Ok Sample.accepted)))
      as (Hcalled & _); [vm_compute; reflexivity|reflexivity|].
    exact Hcalled.
  - destruct (submit_job_ignores_request_arguments
                (Sample.world Sample.data Sample.refused)
                Sample.submit_with_payload [] [] initial_state)
      as (_ & _ & H).
    destruct (H "api.ops.example.org" Sample.ops_resolved Sample.refused)
      as (_ & _ & _ & Hraise); [vm_compute; reflexivity|reflexivity|].
    exact (Hraise (ClientError "ConnectionError: connection refused")
                  eq_refl).
Defined.

(** C7, as stated, fails: the request carries [algo_id=hello] and
    [version=main]; the handler completes, and the submit call it made
    received no argument. *)
Lemma submit_job_payload_counterexample :
  get (Sample.world Sample.data (Sample.always (Ok Sample.accepted)))
      SubmitJobHandler Sample.submit_with_payload initial_state
  = (Ok tt, after Sample.ops_resolved
              [RemoteCall submitJob [];
               Finish {| status_code := 200;
                         response := Json (JObj [("id", JStr "j-1")]) |}])
  ∧ ¬ passes_payload Sample.submit_with_payload
        (trace (get (Sample.world Sample.data
                       (Sample.always (Ok Sample.accepted)))
                    SubmitJobHandler Sample.submit_with_payload
                    initial_state).2).
Proof.
  split; [vm_compute; reflexivity|].
  intros (args & Hcall & Hall).
  assert (args = []) as ->.
  { vm_compute in Hcall.
    apply elem_of_cons in Hcall as [Heq|Hcall]; [by injection Heq|].
    apply elem_of_cons in Hcall as [Heq|Hcall]; [discriminate|].
    by apply elem_of_nil in Hcall. }
  assert ([104; 101; 108; 108; 111]%N ∈ @nil text) as Hin.
  { apply (Hall "algo_id" [Sample.ascii_bytes "hello"]).
    - apply elem_of_cons. by left.
    - eexists. split; [reflexivity|]. vm_compute. reflexivity. }
  by apply elem_of_nil in Hin.
Qed.

(** ** Loading the configuration *)

Lemma setup_handlers_registers url app base :
  settings app !! "base_url" = Some base →
  ∃ app', setup_handlers url app = Ok app'
          ∧ length (handlers app') = (length (handlers app) + 7)%nat.
Proof.
  intros Hb. unfold setup_handlers, getitem. rewrite Hb.
  eexists. split; [reflexivity|]. simpl. rewrite !length_app. simpl. lia.
Qed.

(** C8, as amended: the configuration is read inside [get_maap_config],
    on the first request of each host.  [setup_handlers] registers the
    seven routes without reading it; when the file cannot be loaded,
    every request whose host has no cached resolution raises the
    exception of the load before [try]: the exception leaves the
    handler, the state is unchanged, and nothing recovers from it. *)
Theorem config_load_failure_at_request_time
    (w : World) (e : exn) (h : handler_class) (self : Request) (s : State)
    (url : list string → string) (app : web_app) (base : string) :
  config_source w = Raise e →
  cache_lookup (host self) (cache s) = None →
  settings app !! "base_url" = Some base →
  get w h self s = (Raise e, s)
  ∧ ∃ app', setup_handlers url app = Ok app'
            ∧ length (handlers app') = (length (handlers app) + 7)%nat.
Proof.
  intros Hsrc Hmiss Hbase. split; [|by eapply setup_handlers_registers].
  apply get_api_raises. unfold maap_api. apply bind_raise.
  unfold get_maap_config. rewrite Hmiss.
  unfold get_maap_config_wrapped. by rewrite Hsrc.
Qed.

Lemma config_load_failure_at_request_time_witness :
  get Sample.no_file JobStatusHandler Sample.revoke_j1 initial_state
  = (Raise FileNotFoundError, initial_state)
  ∧ ∃ app', setup_handlers Sample.join Sample.app = Ok app'
            ∧ length (handlers app')
              = (length (handlers Sample.app) + 7)%nat.
Proof.
  apply (config_load_failure_at_request_time Sample.no_file
           FileNotFoundError JobStatusHandler Sample.revoke_j1 initial_state
           Sample.join Sample.app "/user/alice");
    reflexivity.
Defined.

(** C8, as stated, fails: with the configuration file missing,
    initialisation completes ([setup_handlers] returns normally, the
    cache is empty), and the failure appears while a request is
    handled. *)
Lemma config_load_failure_counterexample :
  (∃ app', setup_handlers Sample.join Sample.app = Ok app')
  ∧ get Sample.no_file RevokeJobHandler Sample.revoke_j1 initial_state
    = (Raise FileNotFoundError, initial_state).
Proof.
  split; [|vm_compute; reflexivity].
  destruct (setup_handlers_registers Sample.join Sample.app "/user/alice")
    as (app' & H & _); [reflexivity|]. by exists app'.
Qed.

(** ** The cache stays coherent *)

Lemma keeps_cache_bind {A B} (m : M A) (f : A → M B) :
  keeps_cache m → (∀ a, keeps_cache (f a)) → keeps_cache (m ≫= f).
Proof.
  intros Hm Hf s. unfold mbind, M_bind. specialize (Hm s).
  destruct (m s) as [[a|e] s']; simpl in *; [|done].
  by rewrite Hf.
Qed.

Lemma keeps_cache_try {A} (block handler : M A) :
  keeps_cache block → keeps_cache handler →
  keeps_cache (try_except block handler).
Proof.
  intros Hb Hh s. unfold try_except. specialize (Hb s).
  destruct (block s) as [[a|e] s']; simpl in *; [done|].
  by rewrite Hh.
Qed.

Lemma keeps_cache_lift {A} (r : result A) : keeps_cache (lift r).
Proof. by intros s. Qed.

Lemma keeps_cache_emit ev : keeps_cache (emit ev).
Proof. by intros s. Qed.

Lemma keeps_cache_call maap m args : keeps_cache (call maap m args).
Proof.
  apply keeps_cache_bind; [apply keeps_cache_emit|].
  intros _. apply keeps_cache_lift.
Qed.

Lemma keeps_cache_except self : keeps_cache (except_clause self).
Proof. by intros s. Qed.

Lemma keeps_cache_respond h resp : keeps_cache (respond h resp).
Proof.
  unfold respond, finish.
  destruct (branches h), (resp_ok resp);
    repeat first [ apply keeps_cache_emit | apply keeps_cache_lift
                 | apply keeps_cache_bind; [|intros ?] ].
Qed.

Lemma bind_cache {A B} (m : M A) (f : A → M B) s :
  (∀ a, keeps_cache (f a)) → cache ((m ≫= f) s).2 = cache (m s).2.
Proof.
  intros Hf. unfold mbind, M_bind.
  destruct (m s) as [[a|e] s']; simpl; [|done]. apply Hf.
Qed.

(** A handler changes the cache only through [get_maap_config]. *)
Lemma get_cache w h self s :
  cache (get w h self s).2 = cache (get_maap_config w (host self) s).2.
Proof.
  rewrite get_skeleton. unfold skeleton, maap_api.
  rewrite bind_cache, bind_cache; [done|by intros [c|]|].
  intros api.
  apply keeps_cache_bind; [apply keeps_cache_lift|]. intros maap.
  destruct (required_param h) as [key|].
  - apply keeps_cache_bind; [apply keeps_cache_lift|]. intros params.
    apply keeps_cache_try; [|apply keeps_cache_except].
    apply keeps_cache_bind; [apply keeps_cache_lift|]. intros v.
    apply keeps_cache_bind; [apply keeps_cache_call|]. intros resp.
    apply keeps_cache_respond.
  - apply keeps_cache_try; [|apply keeps_cache_except].
    apply keeps_cache_bind; [apply keeps_cache_call|]. intros resp.
    apply keeps_cache_respond.
Qed.

(** Coherence holds before the first request and every handler keeps
    it: it holds in every state the process reaches. *)
Lemma get_coherent w h self s :
  coherent w s → coherent w (get w h self s).2.
Proof.
  intros Hc k v. rewrite get_cache.
  by apply (get_maap_config_coherent w (host self) s Hc).
Qed.

(** The cache never exceeds its capacity. *)
Lemma get_maap_config_bounded w host s :
  (length (cache s) ≤ maxsize)%nat →
  (length (cache (get_maap_config w host s).2) ≤ maxsize)%nat.
Proof.
  intros Hlen. unfold get_maap_config.
  destruct (cache_lookup host (cache s)) as [v|] eqn:Hl; simpl.
  - unfold cache_lookup in Hl.
    destruct (List.find _ (cache s)) as [[k v']|] eqn:Hf; [|done].
    apply find_some in Hf as [Hin Hk].
    apply bool_decide_eq_true in Hk. simpl in Hk. subst k.
    assert (length (List.filter
              (λ kv, negb (bool_decide (kv.1 = host))) (cache s))
            < length (cache s))%nat as Hlt;
      [|unfold cache_touch; simpl; lia].
    clear Hlen. induction (cache s) as [|[k0 v0] c IH]; [done|].
    simpl. destruct (bool_decide_reflect (k0 = host)) as [->|Hne]; simpl.
    + apply Nat.lt_succ_r, List.filter_length_le.
    + destruct Hin as [Heq|Hin]; [by injection Heq|].
      specialize (IH Hin). lia.
  - destruct (get_maap_config_wrapped w host); simpl; [|done].
    unfold cache_store. rewrite length_take. unfold maxsize. lia.
Qed.

(** ** [bytes.decode] on sample inputs *)

Example decode_ascii : Utf8.decode [0x6A; 0x2D; 0x31]%N = Some [106; 45; 49]%N.
Proof. reflexivity. Qed.

Example decode_two_bytes : Utf8.decode [0xC3; 0xA9]%N = Some [0xE9]%N.
Proof. reflexivity. Qed.

Example decode_three_bytes : Utf8.decode [0xE2; 0x82; 0xAC]%N = Some [0x20AC]%N.
Proof. reflexivity. Qed.

Example decode_four_bytes :
  Utf8.decode [0xF0; 0x9F; 0x98; 0x80]%N = Some [0x1F600]%N.
Proof. reflexivity. Qed.

Example decode_rejects_overlong : Utf8.decode [0xC0; 0x80]%N = None.
Proof. reflexivity. Qed.

Example decode_rejects_surrogate : Utf8.decode [0xED; 0xA0; 0x80]%N = None.
Proof. reflexivity. Qed.

Example decode_rejects_beyond_range :
  Utf8.decode [0xF4; 0x90; 0x80; 0x80]%N = None.
Proof. reflexivity. Qed.

Example decode_rejects_truncated : Utf8.decode [0xE2; 0x82]%N = None.
Proof. reflexivity. Qed.

Example decode_rejects_stray_continuation : Utf8.decode [0x80]%N = None.
Proof. reflexivity. Qed.

(** ** What a handler can add to the trace *)

(** Whatever the world, the route and the request: a handler either
    raises, having added nothing or the remote call alone, or returns
    normally, having added the remote call and one envelope built from
    the status code of a response.  No run adds a log record, and no
    run that raises writes an envelope. *)
Lemma get_outcome_shape w h self s :
  (∃ e, (get w h self s).1 = Raise e
        ∧ (trace (get w h self s).2 = trace s
           ∨ ∃ args, trace (get w h self s).2
                     = trace s ++ [RemoteCall (remote_method h) args]))
  ∨ ((get w h self s).1 = Ok tt
     ∧ ∃ args resp content,
         trace (get w h self s).2
         = trace s ++ [RemoteCall (remote_method h) args;
                       Finish {| status_code := resp_status_code resp;
                                 response := content |}]).
Proof.
  pose proof (maap_api_trace w (host self) s) as Ht.
  destruct (maap_api w (host self) s) as [[api|e] s1] eqn:Hapi; simpl in Ht.
  2:{ left. exists e. rewrite (get_api_raises w h self s e s1 Hapi).
      split; [done|]. by left. }
  destruct (MAAP w api) as [maap|e] eqn:Hmaap.
  2:{ left. exists e.
      rewrite (get_constructor_raises w h self s api s1 e Hapi Hmaap).
      split; [done|]. by left. }
  destruct (call_args h (arguments self)) as [args|e] eqn:Hargs.
  - destruct (maap (remote_method h) args) as [resp|e] eqn:Hcall.
    + rewrite (get_call_returns w h self s api s1 maap args resp) by done.
      unfold respond, try_except.
      destruct (branches h); [destruct (resp_ok resp)|].
      * unfold mbind, M_bind, lift.
        destruct (resp_json resp) as [j|e]; simpl.
        -- right. split; [done|]. exists args, resp, (Json j).
           by rewrite Ht, <- (assoc_L (++)).
        -- left. exists not_callable. split; [done|]. right.
           exists args. by rewrite Ht.
      * right. split; [done|]. exists args, resp, (Text (resp_text resp)).
        simpl. by rewrite Ht, <- (assoc_L (++)).
      * right. split; [done|]. exists args, resp, (Text (resp_text resp)).
        simpl. by rewrite Ht, <- (assoc_L (++)).
    + rewrite (remote_error_ends_in_type_error w h self s api s1 maap args e)
        by done.
      left. exists not_callable. split; [done|]. right. exists args.
      simpl. by rewrite Ht.
  - unfold call_args in Hargs.
    destruct (required_param h) as [key|] eqn:Hkey; [|done].
    destruct (parse_params (arguments self)) as [params|e'] eqn:Hp.
    + destruct (params !! key) as [v|] eqn:Hv.
      { unfold mbind, result_bind, getitem in Hargs. by rewrite Hv in Hargs. }
      rewrite (missing_param_ends_in_type_error w h self s api s1 maap key
                 params) by done.
      left. exists not_callable. split; [done|]. left. by simpl.
    + left. exists e'.
      rewrite (get_parse_raises w h self s api s1 maap key e') by done.
      split; [done|]. by left.
Qed.

(** No handler ever emits a log record. *)
Lemma get_never_logs w h self s level msg :
  LogRecord level msg ∈ trace (get w h self s).2 →
  LogRecord level msg ∈ trace s.
Proof.
  destruct (get_outcome_shape w h self s)
    as [(e & _ & [->|[args ->]])|(_ & args & resp & content & ->)];
    [done|..]; rewrite elem_of_app.
  - intros [H|H%list_elem_of_singleton]; [done|discriminate].
  - intros [H|H]; [done|].
    apply elem_of_cons in H as [H|H]; [discriminate|].
    apply list_elem_of_singleton in H. discriminate.
Qed.

(** A handler that raises has written no envelope. *)
Lemma get_raise_writes_nothing w h self s e chunk :
  (get w h self s).1 = Raise e →
  Finish chunk ∈ trace (get w h self s).2 → Finish chunk ∈ trace s.
Proof.
  intros Hr.
  destruct (get_outcome_shape w h self s)
    as [(e' & _ & [->|[args ->]])|(Hok & _)];
    [done| |congruence]. rewrite elem_of_app.
  intros [H|H%list_elem_of_singleton]; [done|discriminate].
Qed.


(** * Further properties *)

(** ** The resolver cache *)

Lemma cache_lookup_touch {V} (host : string) (v : V) c :
  cache_lookup host (cache_touch host v c) = Some v.
Proof.
  unfold cache_touch. rewrite cache_lookup_cons.
  by rewrite bool_decide_true.
Qed.

Lemma cache_lookup_store {V} (host : string) (v : V) c :
  cache_lookup host (cache_store host v c) = Some v.
Proof.
  unfold cache_store, maxsize. simpl. rewrite cache_lookup_cons.
  by rewrite bool_decide_true.
Qed.

(** X1: once a host has been resolved, the next resolution of that host
    is answered from the cache: it returns the same entry whatever the
    configuration file has become, also when the file can no longer be
    loaded. *)
Theorem cached_resolution_ignores_config
    (w w' : World) (host : string) (s s1 : State) (v : option env_entry) :
  get_maap_config w host s = (Ok v, s1) →
  (get_maap_config w' host s1).1 = Ok v.
Proof.
  unfold get_maap_config at 1. intros Hget.
  assert (cache_lookup host (cache s1) = Some v) as Hl.
  { destruct (cache_lookup host (cache s)) as [v0|].
    - injection Hget as <- <-. apply cache_lookup_touch.
    - destruct (get_maap_config_wrapped w host) as [v0|]; [|done].
      injection Hget as <- <-. apply cache_lookup_store. }
  unfold get_maap_config. by rewrite Hl.
Qed.

Lemma cached_resolution_ignores_config_witness :
  (get_maap_config Sample.no_file "ade.ops.example.org"
     Sample.ops_resolved).1 = Ok (Some Sample.ops).
Proof.
  apply (cached_resolution_ignores_config
           (Sample.world Sample.data Sample.refused) Sample.no_file
           "ade.ops.example.org" initial_state Sample.ops_resolved).
  vm_compute. reflexivity.
Defined.

Lemma serve_invariant (P : State → Prop) w :
  (∀ h self s, P s → P (get w h self s).2) →
  ∀ requests s, P s → P (serve w requests s).
Proof.
  intros Hstep requests.
  induction requests as [|[h self] rest IH]; intros s Hs; [done|].
  simpl. by apply IH, Hstep.
Qed.

(** X2: the resolver cache never holds more than 128 entries, whatever
    requests the process has handled. *)
Theorem cache_never_exceeds_maxsize
    (w : World) (requests : list (handler_class * Request)) :
  (length (cache (serve w requests initial_state)) ≤ 128)%nat.
Proof.
  apply (serve_invariant (λ s, (length (cache s) ≤ maxsize)%nat)).
  - intros h self s Hs. rewrite get_cache.
    by apply get_maap_config_bounded.
  - simpl. unfold maxsize. lia.
Qed.

(** X3: memoisation is transparent while the configuration file stays
    the same: in every state the process reaches, the decorated
    [get_maap_config] returns, or raises, what its undecorated body
    does. *)
Theorem memoised_resolution_agrees_with_body
    (w : World) (requests : list (handler_class * Request))
    (host : string) :
  (get_maap_config w host (serve w requests initial_state)).1
  = get_maap_config_wrapped w host.
Proof.
  apply get_maap_config_result.
  apply (serve_invariant (coherent w)).
  - intros h self s. apply get_coherent.
  - apply coherent_initial.
Qed.

(** X4: no sequence of requests ever produces a log record: the only
    call to the [logging] module is the one that raises. *)
Theorem no_request_is_ever_logged
    (w : World) (requests : list (handler_class * Request))
    (level : Z) (msg : string) :
  LogRecord level msg ∉ trace (serve w requests initial_state).
Proof.
  apply (serve_invariant (λ s, LogRecord level msg ∉ trace s)).
  - intros h self s Hs Hin. by apply Hs, (get_never_logs w h self).
  - apply not_elem_of_nil.
Qed.

Lemma cache_lookup_None_not_key {V} (host : string) (c : list (string * V)) :
  cache_lookup host c = None → host ∉ c.*1.
Proof.
  induction c as [|[k v] c IH]; [intros _; apply not_elem_of_nil|].
  rewrite cache_lookup_cons. simpl.
  destruct (bool_decide_reflect (k = host)) as [->|Hne]; [done|].
  intros Hl. apply not_elem_of_cons. split; [congruence|by apply IH].
Qed.

Lemma filter_keys_sublist {V} (p : string * V → bool) (c : list (string * V)) :
  (List.filter p c).*1 `sublist_of` c.*1.
Proof.
  induction c as [|kv c IH]; simpl; [constructor|].
  destruct (p kv); simpl; by constructor.
Qed.

Lemma filter_drops_key {V} (host : string) (c : list (string * V)) :
  host ∉ (List.filter (λ kv, negb (bool_decide (kv.1 = host))) c).*1.
Proof.
  induction c as [|[k v] c IH]; simpl; [apply not_elem_of_nil|].
  destruct (bool_decide_reflect (k = host)) as [->|Hne]; simpl; [done|].
  apply not_elem_of_cons. split; [congruence|done].
Qed.

Lemma get_maap_config_keys_distinct w host s :
  NoDup (cache s).*1 → NoDup (cache (get_maap_config w host s).2).*1.
Proof.
  intros Hnd. unfold get_maap_config.
  destruct (cache_lookup host (cache s)) as [v|] eqn:Hl; simpl.
  - apply NoDup_cons. split; [apply filter_drops_key|].
    eapply sublist_NoDup; [exact Hnd|apply filter_keys_sublist].
  - destruct (get_maap_config_wrapped w host) as [v|]; [|done].
    cbn [snd cache]. unfold cache_store. rewrite fmap_take.
    apply (sublist_NoDup _ (host :: (cache s).*1)); [|apply sublist_take].
    apply NoDup_cons. split; [|done].
    by apply cache_lookup_None_not_key.
Qed.

Lemma cache_lookup_behind {V} (host : string) (pre l : list (string * V)) :
  host ∉ pre.*1 → cache_lookup host (pre ++ l) = cache_lookup host l.
Proof.
  induction pre as [|[k v] pre IH]; [done|]. simpl.
  intros [Hk Hpre]%not_elem_of_cons.
  rewrite cache_lookup_cons, bool_decide_false by congruence. by apply IH.
Qed.

(** Resolving another host moves a cached host back by one place at
    most, and keeps it while it is among the first 127. *)
Lemma other_host_pushes_back_by_one w host (v : option env_entry) other s
    pre post :
  other ≠ host →
  cache s = pre ++ (host, v) :: post →
  host ∉ pre.*1 →
  (length pre < 127)%nat →
  ∃ pre' post',
    (cache (get_maap_config w other s).2 = pre' ++ (host, v) :: post')
    ∧ (host ∉ pre'.*1)
    ∧ (length pre' ≤ S (length pre))%nat.
Proof.
  intros Hne Hc Hpre Hlen. unfold get_maap_config.
  destruct (cache_lookup other (cache s)) as [v0|]; simpl.
  - unfold cache_touch. rewrite Hc, List.filter_app. simpl.
    rewrite bool_decide_false by done. simpl.
    eexists ((other, v0) :: _), _. split; [reflexivity|]. split.
    + simpl. apply not_elem_of_cons. split; [done|].
      intros Hin. apply Hpre.
      eapply elem_of_sublist; [exact Hin|apply filter_keys_sublist].
    + simpl. apply le_n_S, List.filter_length_le.
  - destruct (get_maap_config_wrapped w other) as [v0|]; simpl.
    + unfold cache_store, maxsize. rewrite Hc.
      change ((other, v0) :: pre ++ (host, v) :: post)
        with (((other, v0) :: pre) ++ (host, v) :: post).
      rewrite take_app, take_ge by (simpl; lia).
      destruct (128 - length ((other, v0) :: pre))%nat as [|m] eqn:Hm;
        [simpl in Hm; lia|].
      exists ((other, v0) :: pre), (take m post). split; [done|]. split.
      * simpl. apply not_elem_of_cons. by split.
      * simpl. lia.
    + exists pre, post. split; [done|]. split; [done|lia].
Qed.

Lemma stays_cached_while_near_the_front w host (v : option env_entry) others :
  Forall (fun other => other ≠ host) others →
  ∀ s pre post,
    cache s = pre ++ (host, v) :: post →
    host ∉ pre.*1 →
    (length pre + length others ≤ 127)%nat →
    cache_lookup host (cache (resolve_all w others s)) = Some v.
Proof.
  induction 1 as [|other others Hne _ IH]; intros s pre post Hc Hpre Hlen.
  - simpl. rewrite Hc, cache_lookup_behind by done.
    by rewrite cache_lookup_cons, bool_decide_true.
  - simpl in Hlen.
    destruct (other_host_pushes_back_by_one w host v other s pre post)
      as (pre' & post' & Hc' & Hpre' & Hlen'); [done..|lia|].
    apply (IH _ pre' post'); [done..|lia].
Qed.

(** X5: the cache is least recently used.  A host that has just been
    resolved, whether the answer came from the cache or from the file,
    is still cached with the same entry after any 127 further
    resolutions of other hosts.  So a cache hit refreshes the entry:
    what a full cache drops is a host unused for longer than that. *)
Theorem recently_used_host_stays_cached
    (w : World) (host : string) (v : option env_entry) (s s1 : State)
    (others : list string) :
  get_maap_config w host s = (Ok v, s1) →
  Forall (fun other => other ≠ host) others →
  (length others ≤ 127)%nat →
  cache_lookup host (cache (resolve_all w others s1)) = Some v.
Proof.
  intros Hget Hothers Hlen.
  assert (∃ rest, cache s1 = [] ++ (host, v) :: rest) as [rest Hfront].
  { unfold get_maap_config in Hget.
    destruct (cache_lookup host (cache s)) as [v0|].
    - injection Hget as <- <-. by eexists.
    - destruct (get_maap_config_wrapped w host) as [v0|]; [|done].
      injection Hget as <- <-. by eexists. }
  apply (stays_cached_while_near_the_front w host v others Hothers s1 []
           rest Hfront); [apply not_elem_of_nil|simpl; lia].
Qed.

Lemma recently_used_host_stays_cached_witness :
  cache_lookup More.oldest
    (cache (resolve_all (Sample.world Sample.data Sample.refused)
              ["ade.ops.example.org"; "ade.dit.example.org"]
              (get_maap_config (Sample.world Sample.data Sample.refused)
                 More.oldest More.full).2))
  = Some None.
Proof.
  apply (recently_used_host_stays_cached
           (Sample.world Sample.data Sample.refused) More.oldest None
           More.full).
  - vm_compute. reflexivity.
  - repeat constructor; discriminate.
  - simpl. lia.
Defined.

(** Without the hit that refreshed it, the same host is dropped by the
    first resolution that has to be stored. *)
Example unused_host_is_dropped :
  cache_lookup More.oldest
    (cache (resolve_all (Sample.world Sample.data Sample.refused)
              ["ade.ops.example.org"] More.full))
  = None.
Proof. vm_compute. reflexivity. Qed.

(** X6: the resolver cache never holds two entries for the same host,
    whatever requests the process has handled. *)
Theorem cache_hosts_are_distinct
    (w : World) (requests : list (handler_class * Request)) :
  NoDup (cache (serve w requests initial_state)).*1.
Proof.
  apply (serve_invariant (λ s, NoDup (cache s).*1)).
  - intros h self s Hs. rewrite get_cache.
    by apply get_maap_config_keys_distinct.
  - simpl. constructor.
Qed.

(** ** Which entry a host resolves to *)

(** X7: resolution never makes an entry up.  The entry it returns is
    one of the loaded list, and it either contains the host or is marked
    as default while no entry of the list contains the host. *)
Theorem resolution_returns_listed_entry
    (w : World) (data : list env_entry) (host : string) (s : State)
    (x : env_entry) :
  config_source w = Ok data →
  coherent w s →
  (get_maap_config w host s).1 = Ok (Some x) →
  x ∈ data
  ∧ (host_in host (ade_server x) = true
     ∨ (default_host x = true
        ∧ Forall (fun y => host_in host (ade_server y) = false) data)).
Proof.
  intros Hload Hc. rewrite get_maap_config_result by done.
  rewrite (wrapped_loaded w data Hload).
  destruct (List.find (λ y, host_in host (ade_server y)) data) as [m|] eqn:Hm.
  - intros [= ->]. apply List.find_some in Hm as [Hin Hx].
    split; [by apply list_elem_of_In|by left].
  - intros [= Hd]. apply List.find_some in Hd as [Hin Hx].
    split; [by apply list_elem_of_In|]. right. split; [done|].
    apply Forall_forall. intros y Hy%list_elem_of_In.
    by apply (List.find_none _ _ Hm).
Qed.

Lemma resolution_returns_listed_entry_witness :
  Sample.ops ∈ Sample.data
  ∧ (host_in "elsewhere.example.org" (ade_server Sample.ops) = true
     ∨ (default_host Sample.ops = true
        ∧ Forall (fun y => host_in "elsewhere.example.org" (ade_server y)
                           = false) Sample.data)).
Proof.
  apply (resolution_returns_listed_entry
           (Sample.world Sample.data Sample.refused) Sample.data
           "elsewhere.example.org" initial_state Sample.ops eq_refl
           (coherent_initial _)).
  vm_compute. reflexivity.
Defined.

Lemma length_append (p q : string) :
  String.length (p +:+ q) = (String.length p + String.length q)%nat.
Proof.
  induction p as [|a p IH]; [done|].
  rewrite append_cons. simpl. by rewrite IH.
Qed.

Lemma str_contains_length needle hay :
  str_contains needle hay = true →
  (String.length needle ≤ String.length hay)%nat.
Proof.
  intros (pre & post & ->)%str_contains_occurs.
  rewrite !length_append. lia.
Qed.

(** X8: a host that is longer than the server string of an entry is not
    contained in it.  So a [Host] header that is longer than every
    server string of the configuration, for instance because it carries
    a port, and that is in no server list, resolves to the first entry
    marked as default, or to [None] when there is none. *)
Theorem longer_host_resolves_to_default
    (w : World) (data : list env_entry) (host : string) (s : State) :
  config_source w = Ok data →
  coherent w s →
  (∀ x, x ∈ data →
        match ade_server x with
        | AdeStr server => (String.length server < String.length host)%nat
        | AdeList servers => host ∉ servers
        end) →
  (get_maap_config w host s).1
  = Ok (List.find (fun x => default_host x) data).
Proof.
  intros Hload Hc Hlong. rewrite get_maap_config_result by done.
  rewrite (wrapped_loaded w data Hload).
  rewrite (find_none (λ x, host_in host (ade_server x)) data); [done|].
  apply Forall_forall. intros x Hx. specialize (Hlong x Hx).
  unfold host_in. destruct (ade_server x) as [server|servers].
  - destruct (str_contains host server) eqn:Hin; [|done].
    apply str_contains_length in Hin. lia.
  - by apply bool_decide_eq_false.
Qed.

Lemma longer_host_resolves_to_default_witness :
  (get_maap_config (Sample.world Sample.data Sample.refused)
     Sample.dit_with_port initial_state).1
  = Ok (List.find (fun x => default_host x) Sample.data).
Proof.
  apply (longer_host_resolves_to_default
           (Sample.world Sample.data Sample.refused) Sample.data
           Sample.dit_with_port initial_state eq_refl (coherent_initial _)).
  intros x Hx.
  apply elem_of_cons in Hx as [->|Hx]; [vm_compute; lia|].
  apply elem_of_cons in Hx as [->|Hx]; [vm_compute; lia|].
  apply elem_of_cons in Hx as [->|Hx]; [|by apply elem_of_nil in Hx].
  simpl. intros Hin.
  apply elem_of_cons in Hin as [Heq|Hin]; [discriminate|].
  apply elem_of_cons in Hin as [Heq|Hin]; [discriminate|].
  by apply elem_of_nil in Hin.
Defined.

(** X9: the empty string is contained in every string, so a request
    with an empty host resolves to the first entry of the configuration
    whenever the server of that entry is a string. *)
Theorem empty_host_resolves_to_first_entry
    (w : World) (x : env_entry) (rest : list env_entry) (server : string)
    (s : State) :
  config_source w = Ok (x :: rest) →
  coherent w s →
  ade_server x = AdeStr server →
  (get_maap_config w "" s).1 = Ok (Some x).
Proof.
  intros Hload Hc Hx. rewrite get_maap_config_result by done.
  apply (wrapped_first_match w (x :: rest) Hload "" [] x rest);
    [done|constructor|].
  rewrite Hx. simpl. by destruct server.
Qed.

Lemma empty_host_resolves_to_first_entry_witness :
  (get_maap_config (Sample.world Sample.no_default Sample.refused)
     "" initial_state).1 = Ok (Some Sample.dit).
Proof.
  apply (empty_host_resolves_to_first_entry
           (Sample.world Sample.no_default Sample.refused) Sample.dit
           [Sample.uat] "ade.dit.example.org" initial_state eq_refl
           (coherent_initial _) eq_refl).
Defined.

(** ** More on [parse_params] *)

Lemma first_values_snoc args key value :
  first_values (args ++ [(key, value)])
  = first_values args ++ [(key, take 1 value)].
Proof. unfold first_values. by rewrite fmap_app. Qed.

(** X10: [parse_params] reads the first value of each key and nothing
    after it: cutting every value list to its first value changes
    neither the mapping it returns nor the exception it raises.  A
    later value that is not valid UTF-8 is never decoded. *)
Theorem parse_params_reads_first_values_only
    (args : list (string * list bytes)) :
  parse_params args = parse_params (first_values args).
Proof.
  induction args as [|[key value] args IH] using rev_ind; [done|].
  rewrite first_values_snoc, !parse_params_snoc, <- IH.
  by destruct value.
Qed.

Example second_value_is_not_decoded :
  parse_params More.second_value_bad = Ok {[ "job_id" := Sample.j1 ]}.
Proof. vm_compute. reflexivity. Qed.

(** X11: [parse_params] stops at the first entry it cannot decode and
    raises the error of that entry, [IndexError] for an empty value
    list and [UnicodeDecodeError] for a first value that is not valid
    UTF-8; the entries after it are not looked at. *)
Theorem parse_params_stops_at_first_bad_entry
    (pre : list (string * list bytes)) (key : string) (value : list bytes)
    (post : list (string * list bytes)) :
  (∀ k v, (k, v) ∈ pre → ∃ t, first_value_decodes v t) →
  (value = [] →
   parse_params (pre ++ (key, value) :: post) = Raise IndexError)
  ∧ (∀ v0 rest,
       value = v0 :: rest → Utf8.decode (Byte.to_N <$> v0) = None →
       parse_params (pre ++ (key, value) :: post) = Raise UnicodeDecodeError).
Proof.
  intros Hpre. split.
  - intros ->. by apply parse_params_raises.
  - intros v0 rest -> Hbad. apply parse_params_raises; [done|].
    unfold mbind, result_bind, decode_utf8. simpl. by rewrite Hbad.
Qed.

Lemma parse_params_stops_at_first_bad_entry_witness :
  parse_params More.bad_then_empty = Raise UnicodeDecodeError.
Proof.
  refine (proj2 (parse_params_stops_at_first_bad_entry
            [("job_id", [Sample.ascii_bytes "j-1"])] "bad" [[Byte.xff]]
            [("empty", [])] _) [Byte.xff] [] eq_refl eq_refl).
  intros k v Hin.
  apply elem_of_cons in Hin as [Heq|Hin]; [|by apply elem_of_nil in Hin].
  injection Heq as -> ->. exists Sample.j1. eexists.
  split; [reflexivity|vm_compute; reflexivity].
Defined.

Lemma decode_ascii_bytes (bs : list N) :
  Forall (fun b => (b < 128)%N) bs → Utf8.decode bs = Some bs.
Proof.
  induction 1 as [|b bs Hb _ IH]; [done|].
  simpl. apply N.ltb_lt in Hb. rewrite Hb, IH. done.
Qed.

(** X12: ASCII passes through unchanged.  When the first value of every
    key holds only bytes below 128, [parse_params] returns, and it
    binds each key to the code points that are the bytes of its first
    value. *)
Theorem ascii_values_decode_to_themselves
    (args : list (string * list bytes)) :
  NoDup args.*1 →
  (∀ k v, (k, v) ∈ args →
     ∃ v0, head v = Some v0 ∧ Forall (fun b => (Byte.to_N b < 128)%N) v0) →
  ∃ params : gmap string text,
    parse_params args = Ok params
    ∧ ∀ k v, (k, v) ∈ args →
        ∃ v0, head v = Some v0 ∧ params !! k = Some (Byte.to_N <$> v0).
Proof.
  intros Hnd Hascii.
  assert (∀ v0, Forall (fun b => (Byte.to_N b < 128)%N) v0 →
                decode_utf8 v0 = Ok (Byte.to_N <$> v0)) as Hdec.
  { intros v0 Hv0. unfold decode_utf8.
    rewrite decode_ascii_bytes; [done|]. by apply Forall_fmap. }
  destruct (parse_params_decodable args Hnd) as (params & Hp & _ & Hvals).
  { intros k v Hin. destruct (Hascii k v Hin) as (v0 & Hh & Hv0).
    exists (Byte.to_N <$> v0), v0. split; [done|by apply Hdec]. }
  exists params. split; [done|]. intros k v Hin.
  destruct (Hvals k v Hin) as (v0 & t & Hh & Hd & Hl).
  destruct (Hascii k v Hin) as (v0' & Hh' & Hv0).
  rewrite Hh in Hh'. injection Hh' as <-.
  rewrite (Hdec v0 Hv0) in Hd. injection Hd as <-. by exists v0.
Qed.

Lemma ascii_values_decode_to_themselves_witness :
  ∃ params : gmap string text,
    parse_params (arguments More.revoke_j1_verbose) = Ok params
    ∧ ∀ k v, (k, v) ∈ arguments More.revoke_j1_verbose →
        ∃ v0, head v = Some v0 ∧ params !! k = Some (Byte.to_N <$> v0).
Proof.
  apply (ascii_values_decode_to_themselves
           (arguments More.revoke_j1_verbose)).
  - apply NoDup_cons. split; [|apply NoDup_singleton].
    intros Hin%list_elem_of_singleton. discriminate.
  - intros k v Hin.
    apply elem_of_cons in Hin as [Heq|Hin];
      [injection Heq as -> ->; eexists; split; [reflexivity|];
       repeat constructor|].
    apply elem_of_cons in Hin as [Heq|Hin];
      [injection Heq as -> ->; eexists; split; [reflexivity|];
       repeat constructor|].
    by apply elem_of_nil in Hin.
Defined.

Lemma scalar_sound least cp : Utf8.scalar least cp = true → scalar_value cp.
Proof.
  unfold Utf8.scalar, scalar_value.
  intros [[_ Hmax%N.leb_le]%andb_true_iff Hsur%negb_true_iff]%andb_true_iff.
  split; [done|]. intros [Hlo%N.leb_le Hhi%N.leb_le].
  by rewrite Hlo, Hhi in Hsur.
Qed.

Lemma decode_scalar_values_upto (n : nat) :
  ∀ bs t, (length bs ≤ n)%nat → Utf8.decode bs = Some t →
          Forall scalar_value t.
Proof.
  induction n as [|n IH]; intros bs t Hlen Hd.
  - destruct bs; [|simpl in Hlen; lia]. injection Hd as <-. constructor.
  - destruct bs as [|b0 r0]; [injection Hd as <-; constructor|].
    cbn [Utf8.decode] in Hd. cbv zeta in Hd.
    assert (∀ cp r t', (length r ≤ n)%nat → scalar_value cp →
                       cons cp <$> Utf8.decode r = Some t' →
                       Forall scalar_value t') as Hstep.
    { intros cp r t' Hr Hcp Hfm.
      destruct (Utf8.decode r) as [t0|] eqn:Hr0; [|done].
      injection Hfm as <-. constructor; [done|]. by apply (IH r). }
    simpl in Hlen.
    destruct (b0 <? 0x80)%N eqn:Hb0.
    { apply (Hstep b0 r0 t); [lia| |done].
      apply N.ltb_lt in Hb0. split; lia. }
    destruct ((0xC0 <=? b0)%N && (b0 <=? 0xDF)%N).
    { destruct r0 as [|b1 r1]; [done|].
      destruct (Utf8.continuation b1 && _) eqn:Hc in Hd; [|done].
      apply andb_true_iff in Hc as [_ Hc%scalar_sound].
      eapply Hstep; [|exact Hc|exact Hd]. simpl in Hlen. lia. }
    destruct ((0xE0 <=? b0)%N && (b0 <=? 0xEF)%N).
    { destruct r0 as [|b1 [|b2 r2]]; [done..|].
      destruct (Utf8.continuation b1 && _ && _) eqn:Hc in Hd; [|done].
      apply andb_true_iff in Hc as [_ Hc%scalar_sound].
      eapply Hstep; [|exact Hc|exact Hd]. simpl in Hlen. lia. }
    destruct ((0xF0 <=? b0)%N && (b0 <=? 0xF7)%N); [|done].
    destruct r0 as [|b1 [|b2 [|b3 r3]]]; [done..|].
    destruct (Utf8.continuation b1 && _ && _ && _) eqn:Hc in Hd; [|done].
    apply andb_true_iff in Hc as [_ Hc%scalar_sound].
    eapply Hstep; [|exact Hc|exact Hd]. simpl in Hlen. lia.
Qed.

(** X13: every value of the mapping that [parse_params] returns is a
    sequence of Unicode scalar values: no code point above U+10FFFF and
    no surrogate. *)
Theorem parsed_values_are_scalar_values
    (args : list (string * list bytes)) (params : gmap string text)
    (k : string) (t : text) :
  parse_params args = Ok params →
  params !! k = Some t →
  Forall scalar_value t.
Proof.
  revert params.
  induction args as [|[key value] args IH] using rev_ind; intros params Hp.
  - injection Hp as <-. by rewrite lookup_empty.
  - rewrite parse_params_snoc in Hp. unfold mbind, result_bind in Hp.
    destruct (parse_params args) as [p|]; [|done].
    destruct (item0 value) as [v0|]; [|done].
    unfold decode_utf8 in Hp.
    destruct (Utf8.decode (Byte.to_N <$> v0)) as [t0|] eqn:Hd; [|done].
    injection Hp as <-. rewrite lookup_insert.
    case_decide.
    + intros [= <-].
      by apply (decode_scalar_values_upto _ _ _ (Nat.le_refl _) Hd).
    + by apply (IH p).
Qed.

Lemma parsed_values_are_scalar_values_witness :
  Forall scalar_value [233%N].
Proof.
  apply (parsed_values_are_scalar_values Sample.repeated
           (<["username" := [233%N]]> (<["job_id" := Sample.j1]> ∅))
           "username" [233%N]).
  - vm_compute. reflexivity.
  - vm_compute. reflexivity.
Defined.

(** ** How a handler ends *)

Lemma get_ending w h self s : ending w h self s (get w h self s).
Proof.
  destruct (maap_api w (host self) s) as [[api|e] s1] eqn:Hapi.
  2:{ rewrite (get_api_raises w h self s e s1 Hapi). by constructor. }
  destruct (MAAP w api) as [maap|e] eqn:Hmaap.
  2:{ rewrite (get_constructor_raises w h self s api s1 e Hapi Hmaap).
      by eapply constructor_raised. }
  destruct (call_args h (arguments self)) as [args|e] eqn:Hargs.
  - destruct (maap (remote_method h) args) as [resp|e] eqn:Hcall.
    + destruct (branches h) eqn:Hb; [destruct (resp_ok resp) eqn:Hok|].
      * destruct (resp_json resp) as [j|e] eqn:Hj.
        -- rewrite (get_call_returns w h self s api s1 maap args resp)
             by done.
           unfold respond. rewrite Hb, Hok.
           erewrite try_ok; [by eapply json_passed|].
           rewrite (bind_ok _ _ _ j
                      (after s1 [RemoteCall (remote_method h) args]))
             by (unfold lift; by rewrite Hj).
           apply finish_after.
        -- rewrite (get_json_raises w h self s api s1 maap args resp e)
             by done.
           rewrite except_clause_raises. by eapply json_raised.
      * rewrite (get_call_returns w h self s api s1 maap args resp) by done.
        unfold respond. rewrite Hb, Hok.
        rewrite (try_ok _ _ _ tt _ (finish_after _ s1 _)).
        eapply text_passed; eauto.
      * rewrite (get_call_returns w h self s api s1 maap args resp) by done.
        unfold respond. rewrite Hb.
        rewrite (try_ok _ _ _ tt _ (finish_after _ s1 _)).
        eapply text_passed; eauto.
    + rewrite (remote_error_ends_in_type_error w h self s api s1 maap args e)
        by done.
      by eapply call_raised.
  - unfold call_args in Hargs.
    destruct (required_param h) as [key|] eqn:Hkey; [|done].
    destruct (parse_params (arguments self)) as [params|e'] eqn:Hp.
    + destruct (params !! key) as [v|] eqn:Hv.
      { unfold mbind, result_bind, getitem in Hargs. by rewrite Hv in Hargs. }
      rewrite (missing_param_ends_in_type_error w h self s api s1 maap key
                 params) by done.
      rewrite except_clause_raises. by eapply parameter_missing.
    + rewrite (get_parse_raises w h self s api s1 maap key e') by done.
      by eapply decoding_raised.
Qed.

Lemma maap_api_keeps_trace w host s r s1 :
  maap_api w host s = (r, s1) → trace s1 = trace s.
Proof. intros H. by rewrite <- (maap_api_trace w host s), H. Qed.

(** X14: the exceptions that can leave a handler.  It is either the
    [TypeError] of the [except] clause, or the exception of one of the
    three steps that run before [try]: environment resolution, the
    client constructor, or [parse_params] on a route that reads a
    parameter.  The [KeyError] of a missing parameter and the errors of
    the client never leave a handler as such. *)
Theorem handler_raises_type_error_or_an_early_error
    (w : World) (h : handler_class) (self : Request) (s : State) (e : exn) :
  (get w h self s).1 = Raise e →
  e = not_callable
  ∨ (maap_api w (host self) s).1 = Raise e
  ∨ (∃ api, (maap_api w (host self) s).1 = Ok api ∧ MAAP w api = Raise e)
  ∨ (∃ key, required_param h = Some key
            ∧ parse_params (arguments self) = Raise e).
Proof.
  generalize (get_ending w h self s). generalize (get w h self s).
  intros out Hend He.
  destruct Hend as [e' s1 Hapi|api s1 e' Hapi Hmaap
                    |api s1 maap key e' Hapi Hmaap Hkey Hp| | | | |];
    simpl in He; try (injection He as <-); try discriminate; try (by left).
  - right. left. by rewrite Hapi.
  - right. right. left. exists api. by rewrite Hapi.
  - right. right. right. by exists key.
Qed.

Lemma handler_raises_type_error_or_an_early_error_witness :
  FileNotFoundError = not_callable
  ∨ (maap_api Sample.no_file (host Sample.revoke_j1) initial_state).1
    = Raise FileNotFoundError
  ∨ (∃ api, (maap_api Sample.no_file (host Sample.revoke_j1)
               initial_state).1 = Ok api
            ∧ MAAP Sample.no_file api = Raise FileNotFoundError)
  ∨ (∃ key, required_param RevokeJobHandler = Some key
            ∧ parse_params (arguments Sample.revoke_j1)
              = Raise FileNotFoundError).
Proof.
  apply (handler_raises_type_error_or_an_early_error Sample.no_file
           RevokeJobHandler Sample.revoke_j1 initial_state).
  vm_compute. reflexivity.
Defined.

(** X15: every envelope that a handler writes comes from a response
    that the client returned for the method of the route: it carries the
    status code of that response, and either its raw text or the value
    that [resp.json()] returned.  No handler writes an envelope of its
    own making. *)
Theorem envelope_comes_from_remote_response
    (w : World) (h : handler_class) (self : Request) (s : State)
    (chunk : envelope) :
  Finish chunk ∈ trace (get w h self s).2 →
  Finish chunk ∈ trace s
  ∨ ∃ api maap args resp,
      (maap_api w (host self) s).1 = Ok api
      ∧ MAAP w api = Ok maap
      ∧ call_args h (arguments self) = Ok args
      ∧ maap (remote_method h) args = Ok resp
      ∧ status_code chunk = resp_status_code resp
      ∧ (response chunk = Text (resp_text resp)
         ∨ ∃ j, resp_json resp = Ok j ∧ response chunk = Json j).
Proof.
  generalize (get_ending w h self s). generalize (get w h self s).
  intros out Hend.
  destruct Hend as [e s1 Hapi|api s1 e Hapi Hmaap
                    |api s1 maap key e Hapi Hmaap Hkey Hp
                    |api s1 maap key params Hapi Hmaap Hkey Hp Hnone
                    |api s1 maap args e Hapi Hmaap Hargs Hcall
                    |api s1 maap args resp e Hapi Hmaap Hargs Hcall Hb Hok Hj
                    |api s1 maap args resp j Hapi Hmaap Hargs Hcall Hb Hok Hj
                    |api s1 maap args resp Hapi Hmaap Hargs Hcall Hb];
    pose proof (maap_api_keeps_trace _ _ _ _ _ Hapi) as Ht; simpl;
    rewrite ?Ht, ?elem_of_app, ?elem_of_cons, ?elem_of_nil.
  1-4: by left.
  - intros [Hin|[Heq|[]]]; [by left|discriminate].
  - intros [Hin|[Heq|[]]]; [by left|discriminate].
  - intros [Hin|[Heq|[Heq|[]]]]; [by left|discriminate|].
    injection Heq as ->. right. exists api, maap, args, resp.
    rewrite Hapi. split_and!; try done. right. by exists j.
  - intros [Hin|[Heq|[Heq|[]]]]; [by left|discriminate|].
    injection Heq as ->. right. exists api, maap, args, resp.
    rewrite Hapi. split_and!; try done. by left.
Qed.

Lemma envelope_comes_from_remote_response_witness :
  Finish {| status_code := 400; response := Text "<Error>bad id</Error>" |}
    ∈ trace initial_state
  ∨ ∃ api maap args resp,
      (maap_api (Sample.world Sample.data (Sample.always (Ok Sample.rejected)))
         (host Sample.revoke_j1) initial_state).1 = Ok api
      ∧ MAAP (Sample.world Sample.data (Sample.always (Ok Sample.rejected)))
          api = Ok maap
      ∧ call_args JobResultHandler (arguments Sample.revoke_j1) = Ok args
      ∧ maap (remote_method JobResultHandler) args = Ok resp
      ∧ 400%Z = resp_status_code resp
      ∧ (Text "<Error>bad id</Error>" = Text (resp_text resp)
         ∨ ∃ j, resp_json resp = Ok j
                ∧ Text "<Error>bad id</Error>" = Json j).
Proof.
  apply (envelope_comes_from_remote_response
           (Sample.world Sample.data (Sample.always (Ok Sample.rejected)))
           JobResultHandler Sample.revoke_j1 initial_state
           {| status_code := 400;
              response := Text "<Error>bad id</Error>" |}).
  vm_compute. apply list_elem_of_In. right. left. reflexivity.
Defined.

(** X16: what one request adds to the trace.  A handler that raises has
    added nothing, or the one call to the client method of its route; a
    handler that returns has added that call followed by exactly one
    envelope.  So no handler calls the client twice, calls the method of
    another route, or finishes a request twice. *)
Theorem handler_calls_once_and_finishes_once
    (w : World) (h : handler_class) (self : Request) (s : State) :
  ∃ evs,
    trace (get w h self s).2 = trace s ++ evs
    ∧ ((∃ e, (get w h self s).1 = Raise e
             ∧ (evs = [] ∨ ∃ args, evs = [RemoteCall (remote_method h) args]))
       ∨ ((get w h self s).1 = Ok tt
          ∧ ∃ args chunk,
              evs = [RemoteCall (remote_method h) args; Finish chunk])).
Proof.
  generalize (get_ending w h self s). generalize (get w h self s).
  intros out Hend.
  destruct Hend as [e s1 Hapi|api s1 e Hapi Hmaap
                    |api s1 maap key e Hapi Hmaap Hkey Hp
                    |api s1 maap key params Hapi Hmaap Hkey Hp Hnone
                    |api s1 maap args e Hapi Hmaap Hargs Hcall
                    |api s1 maap args resp e Hapi Hmaap Hargs Hcall Hb Hok Hj
                    |api s1 maap args resp j Hapi Hmaap Hargs Hcall Hb Hok Hj
                    |api s1 maap args resp Hapi Hmaap Hargs Hcall Hb];
    pose proof (maap_api_keeps_trace _ _ _ _ _ Hapi) as Ht; simpl;
    rewrite Ht.
  1-4: exists []; split; [by rewrite app_nil_r|]; left; eauto.
  1-2: eexists; split; [done|]; left; eauto.
  1-2: eexists; split; [done|]; right; eauto.
Qed.

(** ** The outcome does not depend on the state *)

Lemma after_nil s : after s [] = s.
Proof. destruct s. unfold after. simpl. by rewrite app_nil_r. Qed.

Lemma after_after s evs evs' : after (after s evs) evs' = after s (evs ++ evs').
Proof. unfold after. simpl. by rewrite (assoc_L (++)). Qed.

Lemma state_blind_lift {A} (r : result A) : state_blind (lift r).
Proof. exists r, []. intros s. unfold lift. by rewrite after_nil. Qed.

Lemma state_blind_emit ev : state_blind (emit ev).
Proof. by exists (Ok tt), [ev]. Qed.

Lemma state_blind_raise {A} e : state_blind (@raise A e).
Proof. exists (Raise e), []. intros s. unfold raise. by rewrite after_nil. Qed.

Lemma state_blind_bind {A B} (m : M A) (f : A → M B) :
  state_blind m → (∀ a, state_blind (f a)) → state_blind (m ≫= f).
Proof.
  intros ([a|e] & evs & Hm) Hf.
  - destruct (Hf a) as (r & evs' & Hfa). exists r, (evs ++ evs').
    intros s. unfold mbind, M_bind. by rewrite Hm, Hfa, after_after.
  - exists (Raise e), evs. intros s. unfold mbind, M_bind. by rewrite Hm.
Qed.

Lemma state_blind_try {A} (block handler : M A) :
  state_blind block → state_blind handler →
  state_blind (try_except block handler).
Proof.
  intros ([a|e] & evs & Hb) (r & evs' & Hh).
  - exists (Ok a), evs. intros s. unfold try_except. by rewrite Hb.
  - exists r, (evs ++ evs'). intros s. unfold try_except.
    by rewrite Hb, Hh, after_after.
Qed.

Lemma state_blind_except self : state_blind (except_clause self).
Proof.
  exists (Raise not_callable), []. intros s.
  by rewrite except_clause_raises, after_nil.
Qed.

Lemma state_blind_respond h resp : state_blind (respond h resp).
Proof.
  unfold respond, finish.
  destruct (branches h), (resp_ok resp);
    repeat first [ apply state_blind_emit | apply state_blind_lift
                 | apply state_blind_bind; [|intros ?] ].
Qed.

Lemma state_blind_call maap m args : state_blind (call maap m args).
Proof.
  apply state_blind_bind; [apply state_blind_emit|].
  intros _. apply state_blind_lift.
Qed.

(** What a handler does once the API host is known. *)
Lemma get_after_resolution w h self :
  ∃ rest : string → M unit,
    (∀ api, state_blind (rest api))
    ∧ ∀ s, get w h self s = (maap_api w (host self) ≫= rest) s.
Proof.
  eexists. split; [|intros s; rewrite get_skeleton; reflexivity].
  intros api. cbv beta.
  apply state_blind_bind; [apply state_blind_lift|]. intros maap.
  destruct (required_param h) as [key|].
  - apply state_blind_bind; [apply state_blind_lift|]. intros params.
    apply state_blind_try; [|apply state_blind_except].
    apply state_blind_bind; [apply state_blind_lift|]. intros v.
    apply state_blind_bind; [apply state_blind_call|]. intros resp.
    apply state_blind_respond.
  - apply state_blind_try; [|apply state_blind_except].
    apply state_blind_bind; [apply state_blind_call|]. intros resp.
    apply state_blind_respond.
Qed.

(** X17: the cache changes no answer.  In one world, that is while
    the configuration file stays the same and the client gives the same
    outcome for the same call (no change upstream), a request is
    answered in every state the process can be in as it is by a process
    that has just started: the handler returns or raises the same, and
    adds the same events. *)
Theorem handler_outcome_is_that_of_a_fresh_process
    (w : World) (h : handler_class) (self : Request) (s : State) :
  coherent w s →
  (get w h self s).1 = (get w h self initial_state).1
  ∧ trace (get w h self s).2
    = trace s ++ trace (get w h self initial_state).2.
Proof.
  intros Hc. destruct (get_after_resolution w h self) as (rest & Hrest & Hget).
  rewrite !Hget. clear Hget.
  pose proof (maap_api_result w (host self) s) as Hr.
  pose proof (maap_api_result w (host self) initial_state) as Hr0.
  rewrite get_maap_config_result in Hr by done.
  rewrite get_maap_config_result in Hr0 by apply coherent_initial.
  rewrite <- Hr0 in Hr. clear Hr0.
  destruct (maap_api w (host self) s) as [r s1] eqn:Hs.
  destruct (maap_api w (host self) initial_state) as [r0 s0] eqn:Hs0.
  simpl in Hr. subst r0.
  apply maap_api_keeps_trace in Hs as Ht.
  apply maap_api_keeps_trace in Hs0 as Ht0. simpl in Ht0.
  destruct r as [api|e].
  - rewrite (bind_ok _ _ _ _ _ Hs), (bind_ok _ _ _ _ _ Hs0).
    destruct (Hrest api) as (r & evs & Happ). rewrite !Happ. simpl.
    by rewrite Ht, Ht0.
  - rewrite (bind_raise _ _ _ _ _ Hs), (bind_raise _ _ _ _ _ Hs0). simpl.
    by rewrite Ht, Ht0, app_nil_r.
Qed.

Lemma handler_outcome_is_that_of_a_fresh_process_witness :
  (get (Sample.world Sample.data (Sample.always (Ok Sample.accepted)))
       RevokeJobHandler Sample.revoke_j1
       (serve (Sample.world Sample.data (Sample.always (Ok Sample.accepted)))
              [(RevokeJobHandler, Sample.revoke_j1)] initial_state)).1
  = (get (Sample.world Sample.data (Sample.always (Ok Sample.accepted)))
         RevokeJobHandler Sample.revoke_j1 initial_state).1
  ∧ trace
      (get (Sample.world Sample.data (Sample.always (Ok Sample.accepted)))
         RevokeJobHandler Sample.revoke_j1
         (serve (Sample.world Sample.data
                   (Sample.always (Ok Sample.accepted)))
                [(RevokeJobHandler, Sample.revoke_j1)] initial_state)).2
    = trace
        (serve (Sample.world Sample.data (Sample.always (Ok Sample.accepted)))
               [(RevokeJobHandler, Sample.revoke_j1)] initial_state)
      ++ trace
           (get (Sample.world Sample.data
                   (Sample.always (Ok Sample.accepted)))
                RevokeJobHandler Sample.revoke_j1 initial_state).2.
Proof.
  apply (handler_outcome_is_that_of_a_fresh_process
           (Sample.world Sample.data (Sample.always (Ok Sample.accepted)))
           RevokeJobHandler Sample.revoke_j1).
  apply (serve_invariant (coherent _)).
  - intros h self s. apply get_coherent.
  - apply coherent_initial.
Defined.

(** ** What a handler reads of the request *)

(** X18: of the arguments of a request, a handler uses the value of its
    required parameter and nothing else.  Two requests with the same
    host and uri, whose arguments both decode and agree on the required
    parameter of the route, are handled alike; on a route without a
    required parameter the arguments and the body are not read at all. *)
Theorem handler_reads_only_its_required_parameter
    (w : World) (h : handler_class) (self self' : Request) (s : State) :
  host self = host self' →
  uri self = uri self' →
  (∀ key, required_param h = Some key →
     ∃ params params',
       parse_params (arguments self) = Ok params
       ∧ parse_params (arguments self') = Ok params'
       ∧ params !! key = params' !! key) →
  get w h self s = get w h self' s.
Proof.
  destruct self as [hst u args bdy], self' as [hst' u' args' bdy'].
  simpl. intros <- <- Hsame.
  rewrite !get_skeleton. unfold skeleton. simpl.
  destruct (required_param h) as [key|]; [|reflexivity].
  destruct (Hsame key eq_refl) as (params & params' & Hp & Hp' & Hkey).
  cbv [mbind M_bind lift]. rewrite Hp, Hp'.
  unfold getitem. rewrite Hkey. reflexivity.
Qed.

Lemma handler_reads_only_its_required_parameter_witness :
  get (Sample.world Sample.data (Sample.always (Ok Sample.accepted)))
      RevokeJobHandler More.revoke_j1_verbose initial_state
  = get (Sample.world Sample.data (Sample.always (Ok Sample.accepted)))
        RevokeJobHandler More.revoke_j1_plain initial_state.
Proof.
  apply (handler_reads_only_its_required_parameter
           (Sample.world Sample.data (Sample.always (Ok Sample.accepted)))
           RevokeJobHandler More.revoke_j1_verbose More.revoke_j1_plain
           initial_state eq_refl eq_refl).
  intros key [= <-].
  exists (<["verbose" := [49%N]]> (<["job_id" := Sample.j1]> ∅)),
         (<["job_id" := Sample.j1]> ∅).
  split; [vm_compute; reflexivity|].
  split; vm_compute; reflexivity.
Defined.

(** X19: on every route, each error raised inside [try] is replaced by
    the [TypeError] of the [except] clause: a missing required
    parameter, an exception of the client call, and an exception of
    [resp.json()] all leave the handler as [TypeError], after the remote
    call if it was made and without any envelope. *)
Theorem errors_inside_try_become_type_error
    (w : World) (h : handler_class) (self : Request) (s s1 : State)
    (api : string) (maap : client) :
  maap_api w (host self) s = (Ok api, s1) →
  MAAP w api = Ok maap →
  (∀ key params,
     required_param h = Some key →
     parse_params (arguments self) = Ok params →
     params !! key = None →
     get w h self s = (Raise not_callable, s1))
  ∧ (∀ args,
       call_args h (arguments self) = Ok args →
       (∀ e, maap (remote_method h) args = Raise e →
             get w h self s
             = (Raise not_callable,
                after s1 [RemoteCall (remote_method h) args]))
       ∧ (∀ resp e,
            branches h = true →
            maap (remote_method h) args = Ok resp →
            resp_ok resp = true → resp_json resp = Raise e →
            get w h self s
            = (Raise not_callable,
               after s1 [RemoteCall (remote_method h) args]))).
Proof.
  intros Hapi Hmaap. split.
  - intros key params Hkey Hp Hnone.
    rewrite (missing_param_ends_in_type_error w h self s api s1 maap key
               params) by done.
    apply except_clause_raises.
  - intros args Hargs. split.
    + intros e Hcall. by eapply remote_error_ends_in_type_error.
    + intros resp e Hb Hcall Hok Hj.
      rewrite (get_json_raises w h self s api s1 maap args resp e) by done.
      apply except_clause_raises.
Qed.

Lemma errors_inside_try_become_type_error_witness :
  get (Sample.world Sample.data (Sample.always (Ok Sample.accepted)))
      ListJobsHandler Sample.revoke_j1 initial_state
  = (Raise not_callable, Sample.ops_resolved).
Proof.
  refine (proj1 (errors_inside_try_become_type_error
            (Sample.world Sample.data (Sample.always (Ok Sample.accepted)))
            ListJobsHandler Sample.revoke_j1 initial_state
            Sample.ops_resolved "api.ops.example.org"
            (Sample.always (Ok Sample.accepted)) _ eq_refl)
            "username" (<["job_id" := Sample.j1]> ∅) eq_refl _ _);
    vm_compute; reflexivity.
Defined.

(** ** [setup_handlers] *)

(** X20: [setup_handlers] raises [KeyError] when the settings of the
    application have no [base_url].  Otherwise it keeps the settings and
    the handlers that were registered, and appends seven entries, all
    for the host pattern [.*$], that register each handler class once,
    each under a path made by [url_path_join] from the base url, the
    name of the extension and one further piece. *)
Theorem setup_handlers_registers_each_class_once
    (url : list string → string) (app : web_app) :
  (settings app !! "base_url" = None →
   setup_handlers url app = Raise (KeyError "base_url"))
  ∧ (∀ base,
       settings app !! "base_url" = Some base →
       ∃ new,
         setup_handlers url app
         = Ok {| settings := settings app; handlers := handlers app ++ new |}
         ∧ Forall (fun entry => entry.1 = ".*$") new
         ∧ NoDup (registered new)
         ∧ (∀ h, h ∈ registered new)
         ∧ Forall (fun route =>
                     ∃ name, route.1
                             = url [base; "dps-jupyter-server-extension"; name])
                  (concat new.*2)).
Proof.
  unfold setup_handlers, getitem. split.
  - by intros ->.
  - intros base ->. unfold add_handlers. simpl.
    rewrite <- !(assoc_L (++)). simpl.
    eexists. split; [reflexivity|]. split; [by repeat constructor|].
    split; [|split].
    + unfold registered. simpl.
      repeat (apply NoDup_cons; split;
              [intros Hin;
               repeat (apply elem_of_cons in Hin as [Heq|Hin];
                       [discriminate|]);
               by apply elem_of_nil in Hin|]).
      apply NoDup_nil_2.
    + intros h. apply list_elem_of_In. unfold registered. simpl.
      destruct h; tauto.
    + simpl. repeat (constructor; [by eexists|]). constructor.
Qed.

Example setup_handlers_without_base_url :
  setup_handlers Sample.join More.bare_app = Raise (KeyError "base_url").
Proof. reflexivity. Qed.

(** ** The cache and the other hosts *)

(** X21: a request touches the cache for its own host only.  It caches
    a resolution for no other host, and it keeps the cached resolution
    of every other host, unless the cache is full, when storing a new
    host drops the one used least recently. *)
Theorem request_caches_only_its_own_host
    (w : World) (h : handler_class) (self : Request) (s : State)
    (k : string) :
  k ≠ host self →
  (∀ v, cache_lookup k (cache (get w h self s).2) = Some v →
        cache_lookup k (cache s) = Some v)
  ∧ ((length (cache s) < maxsize)%nat →
     cache_lookup k (cache (get w h self s).2) = cache_lookup k (cache s)).
Proof.
  intros Hne. rewrite get_cache. unfold get_maap_config.
  destruct (cache_lookup (host self) (cache s)) as [v0|]; simpl.
  - unfold cache_touch.
    rewrite cache_lookup_cons, bool_decide_false by done.
    by rewrite cache_lookup_filter_ne.
  - destruct (get_maap_config_wrapped w (host self)) as [v0|]; simpl;
      [|done].
    unfold cache_store. split.
    + intros v Hv%cache_lookup_take.
      by rewrite cache_lookup_cons, bool_decide_false in Hv.
    + intros Hlen.
      rewrite take_ge by (simpl; unfold maxsize in *; lia).
      by rewrite cache_lookup_cons, bool_decide_false.
Qed.

Lemma request_caches_only_its_own_host_witness :
  (∀ v, cache_lookup "ade.dit.example.org"
          (cache (get (Sample.world Sample.data Sample.refused)
                      RevokeJobHandler Sample.revoke_j1 initial_state).2)
        = Some v →
        cache_lookup "ade.dit.example.org" (cache initial_state) = Some v)
  ∧ ((length (cache initial_state) < maxsize)%nat →
     cache_lookup "ade.dit.example.org"
       (cache (get (Sample.world Sample.data Sample.refused)
                   RevokeJobHandler Sample.revoke_j1 initial_state).2)
     = cache_lookup "ade.dit.example.org" (cache initial_state)).
Proof.
  apply (request_caches_only_its_own_host
           (Sample.world Sample.data Sample.refused) RevokeJobHandler
           Sample.revoke_j1 initial_state "ade.dit.example.org").
  discriminate.
Defined.

